(** * webp-converter-with-s3: batch conversion engine and conversion ledger

    A shallow embedding of
      - src/services/convertionService.ts  (BatchConversionService),
      - src/services/s3Service.ts          (AWSS3Service.listImages,
                                            isImageFile, upload, download),
      - services/conversionTracker.ts      (FileBasedConversionTracker),
    followed by the properties of the specification that concern them.

    Conventions of the embedding.
      - JavaScript numbers that hold counters and byte sizes are integers far
        below 2^53, where the arithmetic of doubles is exact; they are [Z].
        The two quotients the code computes are IEEE-754 doubles ([float]).
      - A JavaScript [Set<string>] and [Map<string,_>] iterate in insertion
        order; they are lists with the insertion discipline written out.
      - The wall-clock fields of results, reports and listed objects
        (processingTime, processingDuration, lastModified) carry no property
        here and are left out of the records.
      - An [await] is a point where other pipelines may run; the scheduler is
        an event-driven machine whose events are those resumptions. *)

From Stdlib Require Import ZArith List String Ascii Bool Lia.
From Stdlib Require Import Strings.Byte.
From Stdlib Require Import Floats.PrimFloat Numbers.Cyclic.Int63.Uint63.
Import ListNotations.

Open Scope string_scope.
Open Scope list_scope.
Open Scope Z_scope.

(* ===================================================================== *)
(** ** JavaScript values used by the services                             *)
(* ===================================================================== *)

Module JS.

(** What a [catch (error)] clause can receive.  [S3ServiceException]
    extends [Error]; anything else that is thrown is [NonError]. *)
Inductive Thrown : Type :=
| S3ServiceException (message : string)
| Error (message : string)
| NonError.

(** [error instanceof Error ? error.message : "Unknown error"] *)
Definition errorMessage (e : Thrown) : string :=
  match e with
  | S3ServiceException m => m
  | Error m => m
  | NonError => "Unknown error"
  end.

(** Outcome of an awaited call: it resolves or it rejects. *)
Inductive Result (A : Type) : Type :=
| Ok (a : A)
| Throw (e : Thrown).
Arguments Ok {A} a.
Arguments Throw {A} e.

(** [number] of an integer value. *)
Definition toNumber (z : Z) : float :=
  if z <? 0 then PrimFloat.opp (PrimFloat.of_uint63 (Uint63.of_Z (- z)))
  else PrimFloat.of_uint63 (Uint63.of_Z z).

(** *** Set<string>, in insertion order *)

Definition Set_has (s : list string) (k : string) : bool :=
  existsb (String.eqb k) s.

Definition Set_add (s : list string) (k : string) : list string :=
  if Set_has s k then s else s ++ [k].

Definition Set_delete (s : list string) (k : string) : list string :=
  filter (fun x => negb (String.eqb k x)) s.

(** *** Map<string, V>, in insertion order; [set] on a present key keeps
    the entry's position and replaces its value. *)

Fixpoint Map_set {V : Type} (m : list (string * V)) (k : string) (v : V)
  : list (string * V) :=
  match m with
  | [] => [(k, v)]
  | (k', v') :: m' =>
      if String.eqb k k' then (k, v) :: m' else (k', v') :: Map_set m' k v
  end.

Fixpoint Map_get {V : Type} (m : list (string * V)) (k : string) : option V :=
  match m with
  | [] => None
  | (k', v') :: m' => if String.eqb k k' then Some v' else Map_get m' k
  end.

Definition Map_delete {V : Type} (m : list (string * V)) (k : string)
  : list (string * V) :=
  filter (fun e => negb (String.eqb k (fst e))) m.

(** *** String.prototype *)

Fixpoint lastIndexOfFrom (c : ascii) (s : string) (i found : Z) : Z :=
  match s with
  | EmptyString => found
  | String a s' =>
      lastIndexOfFrom c s' (i + 1) (if Ascii.eqb a c then i else found)
  end.

(** [s.lastIndexOf(c)]: index of the last occurrence, [-1] when absent. *)
Definition lastIndexOf (s : string) (c : ascii) : Z :=
  lastIndexOfFrom c s 0 (-1).

(** [s.substring(0, e)] for [0 <= e]. *)
Definition substring0 (s : string) (e : Z) : string :=
  String.substring 0 (Z.to_nat e) s.

(** [s.split(c)]: never empty; the separator is dropped. *)
Fixpoint split (c : ascii) (s : string) : list string :=
  match s with
  | EmptyString => [EmptyString]
  | String a s' =>
      if Ascii.eqb a c then EmptyString :: split c s'
      else match split c s' with
           | [] => [String a EmptyString]
           | seg :: segs => String a seg :: segs
           end
  end.

(** [array.pop()] as a value: the last element, [undefined] when empty. *)
Fixpoint pop {A : Type} (l : list A) : option A :=
  match l with
  | [] => None
  | [x] => Some x
  | _ :: l' => pop l'
  end.

Definition lowerChar (a : ascii) : ascii :=
  let n := nat_of_ascii a in
  if (Nat.leb 65 n && Nat.leb n 90)%bool then ascii_of_nat (n + 32) else a.

(** The string holds ASCII characters only (codes below 128). *)
Fixpoint isAscii (s : string) : bool :=
  match s with
  | EmptyString => true
  | String a s' => (Nat.ltb (nat_of_ascii a) 128 && isAscii s')%bool
  end.

(** [s.toLowerCase()] of a string of ASCII characters: the Unicode case
    mapping sends A..Z to a..z and keeps every other ASCII character, with
    no dependence on the context.  Strings are strings of 8-bit
    characters, and a character from 128 on is kept as it is here, which is
    not what the Unicode mapping does to the cased letters beyond ASCII:
    the model is that of the source on ASCII text. *)
Fixpoint toLowerCase (s : string) : string :=
  match s with
  | EmptyString => EmptyString
  | String a s' => String (lowerChar a) (toLowerCase s')
  end.

(** [s.startsWith(p)] *)
Definition startsWith (s p : string) : bool := String.prefix p s.

(** [s.replace(/^\./, empty)]: one leading dot is removed. *)
Definition stripLeadingDot (s : string) : string :=
  match s with
  | String "." s' => s'
  | _ => s
  end.

(** Removal of every double-quote character (code 34), as the
    global replace on the ETag does. *)
Fixpoint stripQuotes (s : string) : string :=
  match s with
  | EmptyString => EmptyString
  | String a s' =>
      if Ascii.eqb a (ascii_of_nat 34) then stripQuotes s'
      else String a (stripQuotes s')
  end.

(** Truthiness of a string: the empty string is falsy. *)
Definition truthy (s : string) : bool :=
  match s with EmptyString => false | _ => true end.

End JS.
Import JS.

(* ===================================================================== *)
(** ** models/image.ts and config/index.ts                                *)
(* ===================================================================== *)

Inductive Status : Type := Success | Failed | Skipped.

Record ConversionResult : Type := {
  sourceKey : string;
  targetKey : string;
  originalSize : Z;
  convertedSize : Z;
  compressionRatio : float;
  status : Status;
  error : option string
}.

Record ConversionReport : Type := {
  totalImages : Z;
  successful : Z;
  failed : Z;
  skipped : Z;
  totalSizeBefore : Z;
  totalSizeAfter : Z;
  averageCompressionRatio : float;
  errors : list string
}.

Record ImageMetadata : Type := {
  originalFormat : string;
  width : Z;
  height : Z
}.

(** The fields of [Config] the services read; [concurrency] is
    [config.processing.concurrency], validated to lie in 1..50. *)
Record Config : Type := {
  targetBucket : string;
  prefix : option string;
  quality : Z;
  supportedFormats : list string;
  concurrency : Z
}.

(** [loadConfig]'s defaults. *)
Definition defaultConfig : Config := {|
  targetBucket := "my-webp-bucket";
  prefix := Some EmptyString;
  quality := 80;
  supportedFormats := ["jpeg"; "jpg"; "png"];
  concurrency := 5
|}.

(* ===================================================================== *)
(** ** services/s3Service.ts                                              *)
(* ===================================================================== *)

Definition Buffer : Type := list byte.

(** [buffer.length] *)
Definition Buffer_length (b : Buffer) : Z := Z.of_nat (List.length b).

Record S3Object : Type := {
  key : string;
  size : Z;
  etag : string
}.

(** The record [processImage] attaches to an upload, before its numbers
    are rendered as text. *)
Record UploadMetadata : Type := {
  original_format : string;
  original_size : Z;
  converted_size : Z;
  compression_ratio : float;
  conversion_quality : Z
}.

(** interface S3Service, over the state [W] its calls act on: the three
    methods the conversion service calls. *)
Record S3Service (W : Type) : Type := {
  listImages : string -> string -> W -> W * Result (list S3Object);
  uploadImage :
    string -> string -> Buffer -> UploadMetadata -> W -> W * Result unit;
  downloadImage : string -> string -> W -> W * Result Buffer
}.
Arguments listImages {W} _ _ _ _.
Arguments uploadImage {W} _ _ _ _ _ _.
Arguments downloadImage {W} _ _ _ _.

Module S3.

(** An object held by the store. *)
Record StoredObject : Type := {
  Bucket : string;
  Key : string;
  Body : Buffer;
  ETag : string;
  Metadata : option UploadMetadata
}.

(** The commands [client.send] receives. *)
Inductive Command : Type :=
| ListObjectsV2 (bucket pfx : string)
| GetObject (bucket k : string)
| PutObject (bucket k : string) (body : Buffer).

(** The store behind the client: its objects, the commands sent so far
    (most recent last), and which commands the store rejects.  A rejection
    is given as the value that leaves the service method: the
    [instanceof S3ServiceException] branches only rewrite its message. *)
Record World : Type := {
  objects : list StoredObject;
  requests : list Command;
  faults : Command -> option Thrown
}.

Definition send (c : Command) (w : World) : World :=
  {| objects := objects w; requests := requests w ++ [c]; faults := faults w |}.

(** [new Set(config.conversion.supportedFormats.map(...))] *)
Definition supportedExtensions (cfg : Config) : list string :=
  fold_left Set_add
    (map (fun format => stripLeadingDot (toLowerCase format))
         (supportedFormats cfg))
    [].

(** [isImageFile]: the text after the last dot, lower-cased, is a
    supported extension. *)
Definition isImageFile (cfg : Config) (k : string) : bool :=
  match option_map toLowerCase (pop (split "." k)) with
  | Some extension =>
      if truthy extension then Set_has (supportedExtensions cfg) extension
      else false
  | None => false
  end.

(** What the listing answers for the objects under a prefix: the
    concatenation of the pages the do-while loop walks through. *)
Definition Contents (w : World) (bucketName pfx : string) : list StoredObject :=
  filter (fun o => String.eqb (Bucket o) bucketName && startsWith (Key o) pfx)%bool
         (objects w).

(** The body of the [for (const object of response.Contents)] loop. *)
Definition pushIfImage (cfg : Config) (images : list S3Object) (o : StoredObject)
  : list S3Object :=
  if (truthy (Key o) && negb (Buffer_length (Body o) =? 0) && truthy (ETag o))%bool
  then
    if isImageFile cfg (Key o)
    then images ++ [ {| key := Key o;
                        size := Buffer_length (Body o);
                        etag := stripQuotes (ETag o) |} ]
    else images
  else images.

Definition listImages (cfg : Config) (bucketName pfx : string) (w : World)
  : World * Result (list S3Object) :=
  let command := ListObjectsV2 bucketName pfx in
  match faults w command with
  | Some e => (send command w, Throw e)
  | None =>
      (send command w,
       Ok (fold_left (pushIfImage cfg) (Contents w bucketName pfx) []))
  end.

Definition sameObject (bucketName k : string) (o : StoredObject) : bool :=
  (String.eqb (Bucket o) bucketName && String.eqb (Key o) k)%bool.

(** PutObject replaces the object of that key or creates it. *)
Definition store (o : StoredObject) (os : list StoredObject) : list StoredObject :=
  filter (fun x => negb (sameObject (Bucket o) (Key o) x)) os ++ [o].

Definition uploadImage (bucketName k : string) (buffer : Buffer)
           (metadata : UploadMetadata) (w : World) : World * Result unit :=
  let command := PutObject bucketName k buffer in
  match faults w command with
  | Some e => (send command w, Throw e)
  | None =>
      ({| objects := store {| Bucket := bucketName; Key := k; Body := buffer;
                              ETag := "etag"; Metadata := Some metadata |}
                           (objects w);
          requests := requests w ++ [command];
          faults := faults w |},
       Ok tt)
  end.

Definition downloadImage (bucketName k : string) (w : World)
  : World * Result Buffer :=
  let command := GetObject bucketName k in
  match faults w command with
  | Some e => (send command w, Throw e)
  | None =>
      match find (sameObject bucketName k) (objects w) with
      | Some o => (send command w, Ok (Body o))
      | None =>
          (send command w,
           Throw (Error ("Failed to download image " ++ k ++ " from bucket "
                         ++ bucketName ++ ": The specified key does not exist.")%string))
      end
  end.

End S3.

(** class AWSS3Service implements S3Service *)
Definition AWSS3Service (cfg : Config) : S3Service S3.World := {|
  listImages := S3.listImages cfg;
  uploadImage := S3.uploadImage;
  downloadImage := S3.downloadImage
|}.

(* ===================================================================== *)
(** ** services/imageProcess.ts: interface ImageProcessor                 *)
(* ===================================================================== *)

Record ImageProcessor : Type := {
  validateImageFormat : Buffer -> Result bool;
  getImageMetadata : Buffer -> Result ImageMetadata;
  convertToWebP : Buffer -> Z -> Result Buffer
}.

(* ===================================================================== *)
(** ** services/convertionService.ts: the per-item pipeline               *)
(* ===================================================================== *)

(** class BatchConversionService, over the state [W] of its S3 service.
    The constructor takes exactly these collaborators; the mutable
    [processingQueue] is part of the scheduler's state further down. *)
Record BatchConversionService (W : Type) : Type := {
  s3Service : S3Service W;
  imageProcessor : ImageProcessor;
  config : Config;
  dryRun : bool
}.
Arguments s3Service {W} _.
Arguments imageProcessor {W} _.
Arguments config {W} _.
Arguments dryRun {W} _.

(** [(a - b) / a] on numbers. *)
Definition ratio (a b : Z) : float :=
  PrimFloat.div (PrimFloat.sub (toNumber a) (toNumber b)) (toNumber a).

Definition generateTargetKey (sourceKey : string) : string :=
  let lastDotIndex := lastIndexOf sourceKey "." in
  if lastDotIndex =? -1 then
    (sourceKey ++ ".webp")%string
  else
    let baseName := substring0 sourceKey lastDotIndex in
    (baseName ++ ".webp")%string.

Definition withStatus (r : ConversionResult) (s : Status) : ConversionResult :=
  {| sourceKey := sourceKey r; targetKey := targetKey r;
     originalSize := originalSize r; convertedSize := convertedSize r;
     compressionRatio := compressionRatio r; status := s; error := error r |}.

Definition withError (r : ConversionResult) (m : string) : ConversionResult :=
  {| sourceKey := sourceKey r; targetKey := targetKey r;
     originalSize := originalSize r; convertedSize := convertedSize r;
     compressionRatio := compressionRatio r; status := status r;
     error := Some m |}.

Definition withConvertedSize (r : ConversionResult) (n : Z) : ConversionResult :=
  {| sourceKey := sourceKey r; targetKey := targetKey r;
     originalSize := originalSize r; convertedSize := n;
     compressionRatio := compressionRatio r; status := status r;
     error := error r |}.

Definition withCompressionRatio (r : ConversionResult) (c : float)
  : ConversionResult :=
  {| sourceKey := sourceKey r; targetKey := targetKey r;
     originalSize := originalSize r; convertedSize := convertedSize r;
     compressionRatio := c; status := status r; error := error r |}.

Section Pipeline.

Context {W : Type} (this : BatchConversionService W).

(** [skipIfExists]: the target key is among the images listed under it
    as a prefix; a listing that throws counts as absent. *)
Definition skipIfExists (targetKey : string) (w : W) : W * bool :=
  match listImages (s3Service this) (targetBucket (config this)) targetKey w with
  | (w', Ok images) =>
      (w', existsb (fun image => String.eqb (key image) targetKey) images)
  | (w', Throw _) => (w', false)
  end.

(** The [catch] clause of [processImage]; [result] is the object as the
    [try] block left it. *)
Definition processImage_catch (result : ConversionResult) (e : Thrown)
  : ConversionResult :=
  withError result (errorMessage e).

Definition processImage (s3Object : S3Object) (w : W) : W * ConversionResult :=
  let sourceKey := key s3Object in
  let targetKey := generateTargetKey sourceKey in
  let result :=
    {| sourceKey := sourceKey; targetKey := targetKey;
       originalSize := size s3Object; convertedSize := 0;
       compressionRatio := 0%float; status := Failed; error := None |} in
  let (w, found) := skipIfExists targetKey w in
  if found then (w, withStatus result Skipped)
  else
    match downloadImage (s3Service this) (targetBucket (config this)) sourceKey w with
    | (w, Throw e) => (w, processImage_catch result e)
    | (w, Ok imageBuffer) =>
        match validateImageFormat (imageProcessor this) imageBuffer with
        | Throw e => (w, processImage_catch result e)
        | Ok false => (w, withError result "Unsupported or invalid image format")
        | Ok true =>
            match getImageMetadata (imageProcessor this) imageBuffer with
            | Throw e => (w, processImage_catch result e)
            | Ok metadata =>
                match convertToWebP (imageProcessor this) imageBuffer
                                    (quality (config this)) with
                | Throw e => (w, processImage_catch result e)
                | Ok webpBuffer =>
                    let result := withConvertedSize result (Buffer_length webpBuffer) in
                    let result :=
                      withCompressionRatio result
                        (ratio (originalSize result) (convertedSize result)) in
                    if negb (dryRun this) then
                      let uploadMetadata :=
                        {| original_format := originalFormat metadata;
                           original_size := originalSize result;
                           converted_size := convertedSize result;
                           compression_ratio := compressionRatio result;
                           conversion_quality := quality (config this) |} in
                      match uploadImage (s3Service this) (targetBucket (config this))
                                        targetKey webpBuffer uploadMetadata w with
                      | (w, Throw e) => (w, processImage_catch result e)
                      | (w, Ok _) => (w, withStatus result Success)
                      end
                    else (w, withStatus result Success)
                end
            end
        end
    end.

End Pipeline.

(* ===================================================================== *)
(** ** services/convertionService.ts: the batch scheduler                 *)
(* ===================================================================== *)

(** interface ProcessingQueue; the [failed] set is [failedKeys] here, the
    name [failed] being the report's counter. *)
Record ProcessingQueue : Type := {
  pending : list S3Object;
  processing : list string;
  completed : list string;
  failedKeys : list string
}.

(** A promise returned by [processImageWithTracking]: still running the
    pipeline of [image], or resolved with its result.  It never rejects:
    the method catches whatever [processImage] throws. *)
Inductive PromiseState : Type :=
| Running (image : S3Object)
| Resolved (result : ConversionResult).

(** The state [processConcurrentBatches] works on: the service's
    configuration and queue, the local [activePromises] map (its values are
    indices into [promises], the promises created so far), and the report
    object shared with every pipeline. *)
Record Scheduler : Type := {
  this_config : Config;
  processingQueue : ProcessingQueue;
  activePromises : list (string * nat);
  promises : list PromiseState;
  report : ConversionReport
}.

(** The resumptions of the event loop during a run:
      - [Dispatch]: one pass of the inner [while (pending.length > 0)] loop,
        up to its 10 ms pause;
      - [PipelineDone p o]: the [await this.processImage(image)] of promise
        [p] finishes with outcome [o], and [processImageWithTracking] runs
        to its [return];
      - [RaceWon k]: the [Promise.race] of the outer loop resolves with
        key [k], and the clean-up after it runs. *)
Inductive Event : Type :=
| Dispatch
| PipelineDone (p : nat) (o : Result ConversionResult)
| RaceWon (completedKey : string).

Definition emptyReport : ConversionReport := {|
  totalImages := 0; successful := 0; failed := 0; skipped := 0;
  totalSizeBefore := 0; totalSizeAfter := 0;
  averageCompressionRatio := 0%float; errors := []
|}.

Definition pushError (r : ConversionReport) (line : string) : ConversionReport :=
  {| totalImages := totalImages r; successful := successful r;
     failed := failed r; skipped := skipped r;
     totalSizeBefore := totalSizeBefore r; totalSizeAfter := totalSizeAfter r;
     averageCompressionRatio := averageCompressionRatio r;
     errors := errors r ++ [line] |}.

(** case "success" of the switch *)
Definition countSuccess (r : ConversionReport) (result : ConversionResult)
  : ConversionReport :=
  {| totalImages := totalImages r; successful := successful r + 1;
     failed := failed r; skipped := skipped r;
     totalSizeBefore := totalSizeBefore r + originalSize result;
     totalSizeAfter := totalSizeAfter r + convertedSize result;
     averageCompressionRatio := averageCompressionRatio r;
     errors := errors r |}.

(** [report.failed++] *)
Definition countFailed (r : ConversionReport) : ConversionReport :=
  {| totalImages := totalImages r; successful := successful r;
     failed := failed r + 1; skipped := skipped r;
     totalSizeBefore := totalSizeBefore r; totalSizeAfter := totalSizeAfter r;
     averageCompressionRatio := averageCompressionRatio r;
     errors := errors r |}.

(** [report.skipped++] *)
Definition countSkipped (r : ConversionReport) : ConversionReport :=
  {| totalImages := totalImages r; successful := successful r;
     failed := failed r; skipped := skipped r + 1;
     totalSizeBefore := totalSizeBefore r; totalSizeAfter := totalSizeAfter r;
     averageCompressionRatio := averageCompressionRatio r;
     errors := errors r |}.

Definition addCompleted (q : ProcessingQueue) (k : string) : ProcessingQueue :=
  {| pending := pending q; processing := processing q;
     completed := Set_add (completed q) k; failedKeys := failedKeys q |}.

Definition addFailed (q : ProcessingQueue) (k : string) : ProcessingQueue :=
  {| pending := pending q; processing := processing q;
     completed := completed q; failedKeys := Set_add (failedKeys q) k |}.

(** [processImageWithTracking] from the point where
    [await this.processImage(image)] has outcome [o]: the updated queue and
    report, and the result the promise resolves with. *)
Definition processImageWithTracking (image : S3Object)
           (o : Result ConversionResult)
           (q : ProcessingQueue) (r : ConversionReport)
  : ProcessingQueue * ConversionReport * ConversionResult :=
  match o with
  | Ok result =>
      match status result with
      | Success => (addCompleted q (key image), countSuccess r result, result)
      | Failed =>
          let r := countFailed r in
          let r := match error result with
                   | Some e =>
                       if truthy e
                       then pushError r (sourceKey result ++ ": " ++ e)%string
                       else r
                   | None => r
                   end in
          (addFailed q (key image), r, result)
      | Skipped => (addCompleted q (key image), countSkipped r, result)
      end
  | Throw e =>
      let r := countFailed r in
      let errorMessage := errorMessage e in
      let r := pushError r (key image ++ ": " ++ errorMessage)%string in
      (addFailed q (key image), r,
       {| sourceKey := key image;
          targetKey := generateTargetKey (key image);
          originalSize := size image;
          convertedSize := 0;
          compressionRatio := 0%float;
          status := Failed;
          error := Some errorMessage |})
  end.

(** [promises[p] = s] *)
Fixpoint settle (ps : list PromiseState) (p : nat) (s : PromiseState)
  : list PromiseState :=
  match ps, p with
  | [], _ => []
  | _ :: ps', O => s :: ps'
  | x :: ps', S p' => x :: settle ps' p' s
  end.

(** One resumption; [None] when the event cannot occur in that state. *)
Definition step (st : Scheduler) (ev : Event) : option Scheduler :=
  let q := processingQueue st in
  match ev with
  | Dispatch =>
      match pending q with
      | [] => None
      | image :: rest =>
          Some {| this_config := this_config st;
                  processingQueue :=
                    {| pending := rest;
                       processing := Set_add (processing q) (key image);
                       completed := completed q;
                       failedKeys := failedKeys q |};
                  activePromises :=
                    Map_set (activePromises st) (key image) (List.length (promises st));
                  promises := promises st ++ [Running image];
                  report := report st |}
      end
  | PipelineDone p o =>
      match nth_error (promises st) p with
      | Some (Running image) =>
          let '(q', r', result) := processImageWithTracking image o q (report st) in
          Some {| this_config := this_config st;
                  processingQueue := q';
                  activePromises := activePromises st;
                  promises := settle (promises st) p (Resolved result);
                  report := r' |}
      | _ => None
      end
  | RaceWon completedKey =>
      match pending q, Map_get (activePromises st) completedKey with
      | [], Some p =>
          match nth_error (promises st) p with
          | Some (Resolved _) =>
              Some {| this_config := this_config st;
                      processingQueue :=
                        {| pending := pending q;
                           processing := Set_delete (processing q) completedKey;
                           completed := completed q;
                           failedKeys := failedKeys q |};
                      activePromises := Map_delete (activePromises st) completedKey;
                      promises := promises st;
                      report := report st |}
          | _ => None
          end
      | _, _ => None
      end
  end.

(** [pending.length > 0 || activePromises.size > 0] *)
Definition loopCondition (st : Scheduler) : bool :=
  (negb (Nat.eqb (List.length (pending (processingQueue st))) 0)
   || negb (Nat.eqb (List.length (activePromises st)) 0))%bool.

(** The events in order, without the loop's exit test. *)
Fixpoint steps (st : Scheduler) (evs : list Event) : option Scheduler :=
  match evs with
  | [] => Some st
  | ev :: evs' =>
      match step st ev with
      | Some st' => steps st' evs'
      | None => None
      end
  end.

(** [processConcurrentBatches] along a schedule: the state in which the
    outer loop exits, when the schedule is one of this call (every event
    can occur, and the loop exits exactly when the schedule ends). *)
Fixpoint processConcurrentBatches (st : Scheduler) (schedule : list Event)
  : option Scheduler :=
  if loopCondition st then
    match schedule with
    | [] => None
    | ev :: schedule' =>
        match step st ev with
        | Some st' => processConcurrentBatches st' schedule'
        | None => None
        end
    end
  else
    match schedule with
    | [] => Some st
    | _ :: _ => None
    end.

(** The state after [processAllImages] has initialised the queue. *)
Definition initialise (cfg : Config) (images : list S3Object) : Scheduler := {|
  this_config := cfg;
  processingQueue :=
    {| pending := images; processing := []; completed := []; failedKeys := [] |};
  activePromises := [];
  promises := [];
  report := emptyReport
|}.

(** The average computed after the loop. *)
Definition withAverage (r : ConversionReport) : ConversionReport :=
  if ((0 <? successful r) && (0 <? totalSizeBefore r))%bool then
    {| totalImages := totalImages r; successful := successful r;
       failed := failed r; skipped := skipped r;
       totalSizeBefore := totalSizeBefore r; totalSizeAfter := totalSizeAfter r;
       averageCompressionRatio := ratio (totalSizeBefore r) (totalSizeAfter r);
       errors := errors r |}
  else r.

(** [processAllImages], given the outcome [listed] of its
    [await this.s3Service.listImages(...)] and the schedule of the run:
    the report as it is when the method returns it.  [None] when the
    schedule is not a complete run of the loop.  A pipeline that is still
    running at that moment updates the shared report object only later. *)
Definition processAllImages (cfg : Config) (listed : Result (list S3Object))
           (schedule : list Event) : option ConversionReport :=
  match listed with
  | Ok [] => Some emptyReport
  | Ok images =>
      match processConcurrentBatches (initialise cfg images) schedule with
      | Some st => Some (withAverage (report st))
      | None => None
      end
  | Throw error =>
      let errorMessage := errorMessage error in
      Some (pushError emptyReport ("Batch conversion failed: " ++ errorMessage)%string)
  end.

(** Pipelines whose promise has not resolved. *)
Definition inFlight (st : Scheduler) : nat :=
  List.length (filter (fun p => match p with Running _ => true | Resolved _ => false end)
                      (promises st)).

(* ===================================================================== *)
(** ** services/conversionTracker.ts: the conversion ledger               *)
(* ===================================================================== *)

Module Tracker.

Record ConversionRecord : Type := {
  sourceKey : string;
  targetKey : string;
  convertedAt : string;
  originalSize : Z;
  convertedSize : Z;
  compressionRatio : float
}.

(** The two files, as [JSON.parse] reads them.  The primary store
    (trackingFilePath) holds an array of records, JSON that is not an
    array (an object, a number, a string, null), or text that does not
    parse.  The journal (appendLogPath) is text: the lines that end with
    their newline, followed by the text after the last newline when there
    is some (what a crash in mid-append leaves, a record whose newline is
    missing, white space).  A line is the [JSON.stringify] of a record,
    blank, or text from which no record is read.  White space within a
    line is white space of JSON, on which [trim] and [JSON.parse] agree.
    [None] is a file that does not exist (ENOENT).  The directory of the
    files exists, so [fs.mkdir] with [recursive] does nothing.  A file
    that is not writable makes [fs.writeFile] and [fs.appendFile] on it
    throw and leaves it as it is. *)
Inductive TrackingData : Type :=
| Records (records : list ConversionRecord)
| NotArray
| Unparsable.

Inductive LogLine : Type :=
| RecordLine (record : ConversionRecord)
| BlankLine
| BrokenLine.

Record Journal : Type := {
  terminated : list LogLine;
  unterminated : option LogLine
}.

Record Files : Type := {
  trackingFile : option TrackingData;
  appendLog : option Journal;
  trackingFileWritable : bool;
  appendLogWritable : bool
}.

(** class FileBasedConversionTracker: its mutable fields.  [suspended] is
    no field of the class: it holds [recordsToProcess] of a call of
    [processWriteQueue] that was started without [await] and has not been
    resumed since. *)
Record t : Type := {
  convertedKeys : list string;
  isLoaded : bool;
  writeQueue : list ConversionRecord;
  isWriting : bool;
  suspended : option (list ConversionRecord)
}.

(** [new FileBasedConversionTracker()] *)
Definition new : t := {|
  convertedKeys := []; isLoaded := false; writeQueue := []; isWriting := false;
  suspended := None
|}.

Definition EACCES : Thrown := Error "EACCES: permission denied".
Definition ENOENT : Thrown := Error "ENOENT: no such file or directory".

(** The journal after [fs.writeFile(this.appendLogPath, empty)]. *)
Definition emptied : Journal := {| terminated := []; unterminated := None |}.

(** [fs.writeFile(this.trackingFilePath, JSON.stringify(records, null, 2))] *)
Definition writeTrackingFile (records : list ConversionRecord) (fs : Files)
  : Files * Result unit :=
  if trackingFileWritable fs then
    ({| trackingFile := Some (Records records); appendLog := appendLog fs;
        trackingFileWritable := trackingFileWritable fs;
        appendLogWritable := appendLogWritable fs |}, Ok tt)
  else (fs, Throw EACCES).

(** [fs.writeFile(this.appendLogPath, empty)] *)
Definition clearAppendLog (fs : Files) : Files * Result unit :=
  if appendLogWritable fs then
    ({| trackingFile := trackingFile fs; appendLog := Some emptied;
        trackingFileWritable := trackingFileWritable fs;
        appendLogWritable := appendLogWritable fs |}, Ok tt)
  else (fs, Throw EACCES).

(** The text [JSON.stringify(record)] and a newline, put after the last
    character of the journal.  It is a line of its own when the journal is
    new or ends with a newline; after white space it still reads as the
    record; after any other unterminated text it is glued to that text,
    and the line the two make is no record (the stringified record closes
    every bracket it opens, so nothing before it can make it part of a
    larger value that ends with it). *)
Definition appended (record : ConversionRecord) (journal : option Journal) : Journal :=
  match journal with
  | None => {| terminated := [RecordLine record]; unterminated := None |}
  | Some data =>
      {| terminated :=
           terminated data
           ++ [match unterminated data with
               | None => RecordLine record
               | Some BlankLine => RecordLine record
               | Some _ => BrokenLine
               end];
         unterminated := None |}
  end.

(** [fs.appendFile(this.appendLogPath, logLine)] for the line of a record:
    creates the file when it does not exist. *)
Definition appendFile (record : ConversionRecord) (fs : Files) : Files * Result unit :=
  if appendLogWritable fs then
    ({| trackingFile := trackingFile fs;
        appendLog := Some (appended record (appendLog fs));
        trackingFileWritable := trackingFileWritable fs;
        appendLogWritable := appendLogWritable fs |}, Ok tt)
  else (fs, Throw EACCES).

(** [line.trim()] is truthy *)
Definition nonblank (line : LogLine) : bool :=
  match line with BlankLine => false | _ => true end.

(** [JSON.parse(line)]; [None] when it throws. *)
Definition parse (line : LogLine) : option ConversionRecord :=
  match line with RecordLine record => Some record | _ => None end.

(** [data.trim().split(newline)], up to blank lines. *)
Definition splitLines (data : Journal) : list LogLine :=
  terminated data
  ++ match unterminated data with
     | Some line => [line]
     | None => []
     end.

(** [lines.filter(line => line.trim())] *)
Definition linesOf (data : list LogLine) : list LogLine := filter nonblank data.

Definition withKeys (tr : t) (keys : list string) : t :=
  {| convertedKeys := keys; isLoaded := isLoaded tr;
     writeQueue := writeQueue tr; isWriting := isWriting tr;
     suspended := suspended tr |}.

Definition withLoaded (tr : t) (b : bool) : t :=
  {| convertedKeys := convertedKeys tr; isLoaded := b;
     writeQueue := writeQueue tr; isWriting := isWriting tr;
     suspended := suspended tr |}.

Definition withQueue (tr : t) (q : list ConversionRecord) : t :=
  {| convertedKeys := convertedKeys tr; isLoaded := isLoaded tr;
     writeQueue := q; isWriting := isWriting tr;
     suspended := suspended tr |}.

Definition withWriting (tr : t) (b : bool) : t :=
  {| convertedKeys := convertedKeys tr; isLoaded := isLoaded tr;
     writeQueue := writeQueue tr; isWriting := b;
     suspended := suspended tr |}.

Definition withSuspended (tr : t) (s : option (list ConversionRecord)) : t :=
  {| convertedKeys := convertedKeys tr; isLoaded := isLoaded tr;
     writeQueue := writeQueue tr; isWriting := isWriting tr;
     suspended := s |}.

(** [loadFromMainFile]: [forEach] on a value that is not an array throws
    inside the [try]. *)
Definition loadFromMainFile (tr : t) (fs : Files) : t :=
  match trackingFile fs with
  | Some (Records records) =>
      withKeys tr (fold_left (fun keys record => Set_add keys (sourceKey record))
                             records (convertedKeys tr))
  | _ => tr
  end.

(** The guarded push of [consolidateFiles], on the pair
    (allRecords, seenKeys). *)
Definition keepFirst (acc : list ConversionRecord * list string)
           (record : ConversionRecord) : list ConversionRecord * list string :=
  let (allRecords, seenKeys) := acc in
  if negb (Set_has seenKeys (sourceKey record)) then
    (allRecords ++ [record], Set_add seenKeys (sourceKey record))
  else acc.

Definition keepFirstLine (acc : list ConversionRecord * list string)
           (line : LogLine) : list ConversionRecord * list string :=
  match parse line with
  | Some record => keepFirst acc record
  | None => acc
  end.

(** The [try] block of [consolidateFiles]: the files as it leaves them
    and whether it ran to its end. *)
Definition consolidateFiles_try (fs : Files) : Files * Result unit :=
  let fromMain :=
    match trackingFile fs with
    | Some (Records mainRecords) => fold_left keepFirst mainRecords ([], [])
    | _ => ([], [])
    end in
  match appendLog fs with
  | None => (fs, Throw ENOENT)
  | Some appendData =>
      let lines := linesOf (splitLines appendData) in
      let (allRecords, _) := fold_left keepFirstLine lines fromMain in
      match writeTrackingFile allRecords fs with
      | (fs, Throw e) => (fs, Throw e)
      | (fs, Ok _) => clearAppendLog fs
      end
  end.

(** [consolidateFiles]: the [catch] clause only logs. *)
Definition consolidateFiles (fs : Files) : Files :=
  fst (consolidateFiles_try fs).

Definition loadFromAppendLog (tr : t) (fs : Files) : t * Files :=
  match appendLog fs with
  | None => (tr, fs)
  | Some data =>
      let lines := linesOf (splitLines data) in
      let tr :=
        withKeys tr
          (fold_left (fun keys line =>
                        match parse line with
                        | Some record => Set_add keys (sourceKey record)
                        | None => keys
                        end)
                     lines (convertedKeys tr)) in
      if negb (Nat.eqb (List.length lines) 0) then (tr, consolidateFiles fs)
      else (tr, fs)
  end.

Definition loadConvertedKeys (tr : t) (fs : Files) : t * Files :=
  if isLoaded tr then (tr, fs)
  else
    let tr := loadFromMainFile tr fs in
    let (tr, fs) := loadFromAppendLog tr fs in
    (withLoaded tr true, fs).

Definition isConverted (k : string) (tr : t) (fs : Files) : t * Files * bool :=
  let (tr, fs) := loadConvertedKeys tr fs in
  (tr, fs, Set_has (convertedKeys tr) k).

Definition getConvertedKeys (tr : t) (fs : Files) : t * Files * list string :=
  let (tr, fs) := loadConvertedKeys tr fs in
  (tr, fs, convertedKeys tr).

(** [appendToLog]: logs and rethrows what [fs.appendFile] throws. *)
Definition appendToLog (record : ConversionRecord) (fs : Files)
  : Files * Result unit :=
  appendFile record fs.

(** [processWriteQueue] up to its first [await] (the read of the primary
    store): the guard, the flag, and the queue taken over into
    [recordsToProcess]. *)
Definition processWriteQueue_begin (tr : t) : t * option (list ConversionRecord) :=
  if (isWriting tr || Nat.eqb (List.length (writeQueue tr)) 0)%bool then (tr, None)
  else
    let tr := withWriting tr true in
    let recordsToProcess := writeQueue tr in
    let tr := withQueue tr [] in
    (tr, Some recordsToProcess).

(** [processWriteQueue] from its first [await] on.  The inner [try]
    covers the read and [JSON.parse] only: on a value that is not an array
    [existingRecords.push] throws into the outer [catch], as a refused
    write does. *)
Definition processWriteQueue_resume (recordsToProcess : list ConversionRecord)
           (tr : t) (fs : Files) : t * Files :=
  let requeued := withWriting (withQueue tr (recordsToProcess ++ writeQueue tr)) false in
  match trackingFile fs with
  | Some NotArray => (requeued, fs)
  | existing =>
      let existingRecords :=
        match existing with
        | Some (Records records) => records
        | _ => []
        end in
      match writeTrackingFile (existingRecords ++ recordsToProcess) fs with
      | (fs, Ok _) => (withWriting tr false, fs)
      | (fs, Throw _) => (requeued, fs)
      end
  end.

(** [await this.processWriteQueue()], nothing else running meanwhile. *)
Definition processWriteQueue (tr : t) (fs : Files) : t * Files :=
  match processWriteQueue_begin tr with
  | (tr, Some recordsToProcess) => processWriteQueue_resume recordsToProcess tr fs
  | (tr, None) => (tr, fs)
  end.

(** [this.processWriteQueue()] without [await]: the call runs to its first
    [await] and stays suspended there. *)
Definition processWriteQueue_unawaited (tr : t) : t :=
  match processWriteQueue_begin tr with
  | (tr, Some recordsToProcess) => withSuspended tr (Some recordsToProcess)
  | (tr, None) => tr
  end.


(** [markAsConverted].  The call of [processWriteQueue] at the threshold
    is not awaited: when [markAsConverted] returns it is suspended. *)
Definition markAsConverted (record : ConversionRecord) (tr : t) (fs : Files)
  : t * Files * Result unit :=
  let (tr, fs) := loadConvertedKeys tr fs in
  let tr := withKeys tr (Set_add (convertedKeys tr) (sourceKey record)) in
  let tr := withQueue tr (writeQueue tr ++ [record]) in
  match appendToLog record fs with
  | (fs, Throw e) => (tr, fs, Throw e)
  | (fs, Ok _) =>
      if (negb (isWriting tr) && (100 <=? List.length (writeQueue tr))%nat)%bool
      then (processWriteQueue_unawaited tr, fs, Ok tt)
      else (tr, fs, Ok tt)
  end.

Definition flush (tr : t) (fs : Files) : t * Files :=
  if negb (Nat.eqb (List.length (writeQueue tr)) 0) then processWriteQueue tr fs
  else (tr, fs).

(** The records a sequence of lines holds. *)
Fixpoint recordsOf (data : list LogLine) : list ConversionRecord :=
  match data with
  | [] => []
  | RecordLine record :: data' => record :: recordsOf data'
  | _ :: data' => recordsOf data'
  end.

(** The records the two files hold before a consolidation: those of the
    primary store, then those of the journal. *)
Definition recordsBefore (fs : Files) : list ConversionRecord :=
  match trackingFile fs with
  | Some (Records records) => records
  | _ => []
  end
  ++ match appendLog fs with
     | Some data => recordsOf (splitLines data)
     | None => []
     end.

End Tracker.

(* ===================================================================== *)
(** ** index.ts: the objects class Application wires together             *)
(* ===================================================================== *)

(** The state of a running application: the store its S3 service talks to,
    its conversion tracker and the tracker's files. *)
Record Application : Type := {
  store : S3.World;
  conversionTracker : Tracker.t;
  files : Tracker.Files
}.

(** A call of the S3 service made from within the application. *)
Definition onStore {A : Type} (call : S3.World -> S3.World * A)
           (app : Application) : Application * A :=
  let (w, a) := call (store app) in
  ({| store := w; conversionTracker := conversionTracker app; files := files app |}, a).

Definition applicationS3Service (cfg : Config) : S3Service Application := {|
  listImages := fun bucketName pfx => onStore (S3.listImages cfg bucketName pfx);
  uploadImage := fun bucketName k buffer metadata =>
                   onStore (S3.uploadImage bucketName k buffer metadata);
  downloadImage := fun bucketName k => onStore (S3.downloadImage bucketName k)
|}.

(** [new BatchConversionService(s3Service, imageProcessor, config, dryRun)]
    over the S3 service of the application. *)
Definition batchConversionService (cfg : Config) (ip : ImageProcessor) (dry : bool)
  : BatchConversionService Application := {|
  s3Service := applicationS3Service cfg;
  imageProcessor := ip;
  config := cfg;
  dryRun := dry
|}.

(** The service as the constructor of Application builds it:
    [new BatchConversionService(this.s3Service, this.imageProcessor,
    this.config, this.conversionTracker, options.dryRun || false)].  The
    constructor of the class has four parameters, so the tracker lands in
    [dryRun], where an object is truthy whatever [options.dryRun] is, and
    the fifth argument is dropped. *)
Definition conversionService (cfg : Config) (ip : ImageProcessor) (optionsDryRun : bool)
  : BatchConversionService Application :=
  batchConversionService cfg ip true.

(* ===================================================================== *)
(** ** Notions the properties are stated with                             *)
(* ===================================================================== *)

(** The character occurs in the string. *)
Definition occurs (c : ascii) (s : string) : Prop :=
  In c (list_ascii_of_string s).

(** Promises that have resolved. *)
Definition resolvedCount (ps : list PromiseState) : nat :=
  List.length (filter (fun p => match p with Running _ => false | Resolved _ => true end) ps).

(** successful + failed + skipped *)
Definition counted (r : ConversionReport) : Z :=
  successful r + failed r + skipped r.

(** Every entry of [activePromises] refers to a promise that exists. *)
Definition activeBound (st : Scheduler) : Prop :=
  Forall (fun e => (snd e < List.length (promises st))%nat) (activePromises st).

(** What is left to do: objects to dispatch, pipelines to finish, entries
    to clean up. *)
Definition remaining (st : Scheduler) : nat :=
  3 * List.length (pending (processingQueue st)) + inFlight st
  + List.length (activePromises st).

(** Every running pipeline is the one its key maps to in [activePromises]. *)
Definition tracked (st : Scheduler) : Prop :=
  forall p image,
    nth_error (promises st) p = Some (Running image) ->
    Map_get (activePromises st) (key image) = Some p.

(** The keys still pending are pairwise distinct and distinct from the keys
    of the running pipelines. *)
Definition freshKeys (st : Scheduler) : Prop :=
  NoDup (map key (pending (processingQueue st)))
  /\ forall p image,
       nth_error (promises st) p = Some (Running image) ->
       ~ In (key image) (map key (pending (processingQueue st))).

(** The report has counted exactly the resolved promises, and every one of
    the [n] listed objects is pending or has a promise. *)
Definition accounted (n : nat) (st : Scheduler) : Prop :=
  counted (report st) = Z.of_nat (resolvedCount (promises st))
  /\ (List.length (pending (processingQueue st)) + List.length (promises st) = n)%nat.

(** *** Concrete runs *)

Definition object (k : string) (bytes : Z) : S3Object :=
  {| key := k; size := bytes; etag := "d41d8cd9" |}.

(** The default configuration with CONCURRENCY=3. *)
Definition limitThree : Config := {|
  targetBucket := targetBucket defaultConfig;
  prefix := prefix defaultConfig;
  quality := quality defaultConfig;
  supportedFormats := supportedFormats defaultConfig;
  concurrency := 3
|}.

Definition tenObjects : list S3Object :=
  map (fun k => object k 1000)
      ["img/0.jpg"; "img/1.jpg"; "img/2.jpg"; "img/3.jpg"; "img/4.jpg";
       "img/5.jpg"; "img/6.jpg"; "img/7.jpg"; "img/8.jpg"; "img/9.jpg"].

(** The result of a pipeline that encodes [image] into [bytes] bytes. *)
Definition converted (image : S3Object) (bytes : Z) : ConversionResult :=
  {| sourceKey := key image; targetKey := generateTargetKey (key image);
     originalSize := size image; convertedSize := bytes;
     compressionRatio := ratio (size image) bytes;
     status := Success; error := None |}.

(** All ten are dispatched, every pipeline converts its object into 600
    bytes, in listing order, and the races are won in that order. *)
Definition tenObjectsSchedule : list Event :=
  repeat Dispatch 10
  ++ map (fun entry => PipelineDone (fst entry) (Ok (converted (snd entry) 600)))
         (combine (seq 0 10) tenObjects)
  ++ map (fun image => RaceWon (key image)) tenObjects.

Definition twoObjects : list S3Object :=
  [object "a.jpg" 1000; object "b.png" 500].

(** Both objects are dispatched, the pipelines finish in the order second,
    first, and the two races are won in that order. *)
Definition twoObjectsSchedule : list Event :=
  [Dispatch; Dispatch;
   PipelineDone 1 (Ok (converted (object "b.png" 500) 300));
   PipelineDone 0 (Ok (converted (object "a.jpg" 1000) 600));
   RaceWon "a.jpg"; RaceWon "b.png"].

(** *** Concrete stores, codecs and services *)

Definition bytes (n : nat) : Buffer := repeat x00 n.

(** A codec that accepts every buffer as a 10x10 JPEG and encodes it into
    [n] bytes. *)
Definition codec (n : nat) : ImageProcessor := {|
  validateImageFormat := fun _ => Ok true;
  getImageMetadata := fun _ => Ok {| originalFormat := "jpeg"; width := 10; height := 10 |};
  convertToWebP := fun _ _ => Ok (bytes n)
|}.

(** [new BatchConversionService(new AWSS3Service(config), imageProcessor,
    config, dryRun)], on the store alone. *)
Definition awsConversionService (cfg : Config) (ip : ImageProcessor) (dry : bool)
  : BatchConversionService S3.World := {|
  s3Service := AWSS3Service cfg;
  imageProcessor := ip;
  config := cfg;
  dryRun := dry
|}.

(** A bucket holding one 1000-byte JPEG; no request fails. *)
Definition photoStore : S3.World := {|
  S3.objects := [ {| S3.Bucket := "my-webp-bucket"; S3.Key := "a/b/photo.JPG";
                     S3.Body := bytes 1000; S3.ETag := "9b2cf535";
                     S3.Metadata := None |} ];
  S3.requests := [];
  S3.faults := fun _ => None
|}.

(** The entry [listImages] returns for that object. *)
Definition photo : S3Object :=
  {| key := "a/b/photo.JPG"; size := 1000; etag := "9b2cf535" |}.

(** The store of [photoStore] when the listing is denied: what leaves
    [listImages] is the [Error] its [catch] clause makes of the exception
    of S3, after 12 milliseconds. *)
Definition deniedStore : S3.World := {|
  S3.objects := S3.objects photoStore;
  S3.requests := [];
  S3.faults := fun command =>
    match command with
    | S3.ListObjectsV2 _ _ =>
        Some (Error "Failed to list images from bucket my-webp-bucket: Access Denied, duration: 12")
    | _ => None
    end
|}.

(** A bucket with two images, a text file and an empty image; no request
    fails.  Its listing is [twoObjects]. *)
Definition twoPhotoStore : S3.World := {|
  S3.objects :=
    [ {| S3.Bucket := "my-webp-bucket"; S3.Key := "a.jpg"; S3.Body := bytes 1000;
         S3.ETag := "d41d8cd9"; S3.Metadata := None |};
      {| S3.Bucket := "my-webp-bucket"; S3.Key := "notes.txt"; S3.Body := bytes 20;
         S3.ETag := "0cc175b9"; S3.Metadata := None |};
      {| S3.Bucket := "my-webp-bucket"; S3.Key := "b.png"; S3.Body := bytes 500;
         S3.ETag := "d41d8cd9"; S3.Metadata := None |};
      {| S3.Bucket := "my-webp-bucket"; S3.Key := "empty.jpg"; S3.Body := bytes 0;
         S3.ETag := "d41d8cd9"; S3.Metadata := None |} ];
  S3.requests := [];
  S3.faults := fun _ => None
|}.

(** GetObject and PutObject commands among the requests sent. *)
Definition transfers (w : S3.World) : nat :=
  List.length (filter (fun c => match c with
                                | S3.ListObjectsV2 _ _ => false
                                | _ => true
                                end) (S3.requests w)).

(** The object of that key is in the bucket. *)
Definition stored (w : S3.World) (bucketName k : string) : bool :=
  existsb (S3.sameObject bucketName k) (S3.objects w).

(** An application that has converted nothing yet: the store of
    [photoStore], a new tracker, no tracking files. *)
Definition freshApplication : Application := {|
  store := photoStore;
  conversionTracker := Tracker.new;
  files := {| Tracker.trackingFile := None; Tracker.appendLog := None;
              Tracker.trackingFileWritable := true;
              Tracker.appendLogWritable := true |}
|}.

(** The double nearest to -0.2, the value JavaScript prints as -0.2. *)
Definition minusOneFifth : float := (-0x1.999999999999ap-3)%float.

(** *** Concrete ledgers *)

Definition recordOf (k : string) : Tracker.ConversionRecord := {|
  Tracker.sourceKey := k;
  Tracker.targetKey := generateTargetKey k;
  Tracker.convertedAt := "2024-01-01T00:00:00.000Z";
  Tracker.originalSize := 1000;
  Tracker.convertedSize := 600;
  Tracker.compressionRatio := ratio 1000 600
|}.

(** A primary store with two records and a journal left by a crash: a
    record already compacted, a new one, a blank line and a torn line. *)
Definition crashedFiles : Tracker.Files := {|
  Tracker.trackingFile := Some (Tracker.Records [recordOf "a.jpg"; recordOf "b.png"]);
  Tracker.appendLog :=
    Some {| Tracker.terminated := [Tracker.RecordLine (recordOf "b.png");
                                   Tracker.RecordLine (recordOf "c.jpeg");
                                   Tracker.BlankLine; Tracker.BrokenLine];
            Tracker.unterminated := None |};
  Tracker.trackingFileWritable := true;
  Tracker.appendLogWritable := true
|}.

(** A journal that ends in the line a crash tore in mid-append, beside a
    primary store that has become read-only. *)
Definition tornFiles : Tracker.Files := {|
  Tracker.trackingFile := Some (Tracker.Records [recordOf "a.jpg"]);
  Tracker.appendLog :=
    Some {| Tracker.terminated := [Tracker.RecordLine (recordOf "b.png")];
            Tracker.unterminated := Some Tracker.BrokenLine |};
  Tracker.trackingFileWritable := false;
  Tracker.appendLogWritable := true
|}.

(** The same two files, both writable. *)
Definition tornWritableFiles : Tracker.Files := {|
  Tracker.trackingFile := Tracker.trackingFile tornFiles;
  Tracker.appendLog := Tracker.appendLog tornFiles;
  Tracker.trackingFileWritable := true;
  Tracker.appendLogWritable := true
|}.

(** Text put at the end of the journal starts a line of its own, or
    follows white space only. *)
Definition startsLine (journal : option Tracker.Journal) : bool :=
  match journal with
  | None => true
  | Some data =>
      match Tracker.unterminated data with
      | None => true
      | Some Tracker.BlankLine => true
      | Some _ => false
      end
  end.


(* ===================================================================== *)
(** ** Notions for the further properties                                 *)
(* ===================================================================== *)

(** The identity of a stored object: its bucket and its key. *)
Definition objectId (o : S3.StoredObject) : string * string :=
  (S3.Bucket o, S3.Key o).

(** The entry [listImages] makes of a stored object. *)
Definition entryOf (o : S3.StoredObject) : S3Object :=
  {| key := S3.Key o; size := Buffer_length (S3.Body o);
     etag := stripQuotes (S3.ETag o) |}.

(** The test an object passes to be listed under a prefix of a bucket. *)
Definition listable (cfg : Config) (bucketName pfx : string) (o : S3.StoredObject)
  : bool :=
  (String.eqb (S3.Bucket o) bucketName && startsWith (S3.Key o) pfx
   && (truthy (S3.Key o) && negb (Buffer_length (S3.Body o) =? 0) && truthy (S3.ETag o))
   && S3.isImageFile cfg (S3.Key o))%bool.

(** PutObject commands among the requests sent. *)
Definition puts (w : S3.World) : nat :=
  List.length (filter (fun c => match c with
                                | S3.PutObject _ _ _ => true
                                | _ => false
                                end) (S3.requests w)).

(** No request is rejected. *)
Definition quiet (w : S3.World) : Prop := forall c, S3.faults w c = None.


(** No two objects of the store share a bucket and a key. *)
Definition wellKeyed (w : S3.World) : Prop :=
  NoDup (map objectId (S3.objects w)).


(** The default configuration with webp added to SUPPORTED_FORMATS. *)
Definition webpConfig : Config := {|
  targetBucket := targetBucket defaultConfig;
  prefix := prefix defaultConfig;
  quality := quality defaultConfig;
  supportedFormats := ["jpeg"; "jpg"; "png"; "webp"];
  concurrency := concurrency defaultConfig
|}.

(** The results the promises have resolved with, in promise order. *)
Definition resolvedResults (ps : list PromiseState) : list ConversionResult :=
  flat_map (fun p => match p with Resolved r => [r] | Running _ => [] end) ps.

Definition hasStatus (s : Status) (r : ConversionResult) : bool :=
  match status r, s with
  | Success, Success | Failed, Failed | Skipped, Skipped => true
  | _, _ => false
  end.

(** The sum of [f] over the results of status [s]. *)
Definition sumOver (s : Status) (f : ConversionResult -> Z)
           (rs : list ConversionResult) : Z :=
  fold_right (fun r acc => (if hasStatus s r then f r else 0) + acc) 0 rs.

(** Every listed key is waiting, running, completed or failed. *)
Definition covered (images : list S3Object) (st : Scheduler) : Prop :=
  forall image,
    In image images ->
    In (key image) (map key (pending (processingQueue st)))
    \/ (exists p running,
           nth_error (promises st) p = Some (Running running)
           /\ key running = key image)
    \/ In (key image) (completed (processingQueue st))
    \/ In (key image) (failedKeys (processingQueue st)).

(** The keys the queue holds are listed keys, and the processing set is
    the key set of [activePromises]. *)
Definition withinListing (images : list S3Object) (st : Scheduler) : Prop :=
  processing (processingQueue st) = map fst (activePromises st)
  /\ (forall image, In image (pending (processingQueue st)) -> In (key image) (map key images))
  /\ (forall p running,
        nth_error (promises st) p = Some (Running running) ->
        In (key running) (map key images))
  /\ (forall k, In k (completed (processingQueue st)) -> In k (map key images))
  /\ (forall k, In k (failedKeys (processingQueue st)) -> In k (map key images)).


(** The records of the primary store when it holds an array of them; none
    when the file is missing or does not parse. *)
Definition primaryRecords (fs : Tracker.Files) : list Tracker.ConversionRecord :=
  match Tracker.trackingFile fs with
  | Some (Tracker.Records records) => records
  | _ => []
  end.

(** A loaded tracker with [n] records waiting in its write queue. *)
Definition queued (n : nat) : Tracker.t := {|
  Tracker.convertedKeys := ["q.jpg"];
  Tracker.isLoaded := true;
  Tracker.writeQueue := repeat (recordOf "q.jpg") n;
  Tracker.isWriting := false;
  Tracker.suspended := None
|}.

(** The files of [crashedFiles] on a volume where nothing can be written. *)
Definition readOnlyFiles : Tracker.Files := {|
  Tracker.trackingFile := Tracker.trackingFile crashedFiles;
  Tracker.appendLog := Tracker.appendLog crashedFiles;
  Tracker.trackingFileWritable := false;
  Tracker.appendLogWritable := false
|}.

(** Writable files whose primary store holds the JSON object with no
    members, which is no array. *)
Definition objectFiles : Tracker.Files := {|
  Tracker.trackingFile := Some Tracker.NotArray;
  Tracker.appendLog := Tracker.appendLog crashedFiles;
  Tracker.trackingFileWritable := true;
  Tracker.appendLogWritable := true
|}.


(* ===================================================================== *)
(** ** utils/error.ts and services/imageProcess.ts: SharpImageProcessor   *)
(* ===================================================================== *)

Module Sharp.

(** The classes of utils/error.ts; the last three extend the first. *)
Inductive ErrorClass : Type :=
| ImageProcessingError
| CorruptedImageError
| UnsupportedFormatError
| ConversionError.

(** A thrown value as the [catch] clauses of the processor tell it
    apart: an instance of [ImageProcessingError] with its class and its
    message, or anything else. *)
Inductive Raised : Type :=
| Processing (class : ErrorClass) (message : string)
| Foreign (e : Thrown).

Inductive Outcome (A : Type) : Type :=
| Returns (a : A)
| Raises (r : Raised).
Arguments Returns {A} a.
Arguments Raises {A} r.

(** [new CorruptedImageError(message)] *)
Definition newCorruptedImageError (message : string) : Raised :=
  Processing CorruptedImageError message.

(** [new UnsupportedFormatError(format)] *)
Definition newUnsupportedFormatError (format : string) : Raised :=
  Processing UnsupportedFormatError ("Unsupported image format: " ++ format)%string.

(** [new ConversionError(message)] *)
Definition newConversionError (message : string) : Raised :=
  Processing ConversionError ("Image conversion failed: " ++ message)%string.

(** [new ImageProcessingError(message)] *)
Definition newImageProcessingError (message : string) : Raised :=
  Processing ImageProcessingError message.

(** What [sharp(buffer).metadata()] resolves with; a field the library
    leaves out is [None]. *)
Record Metadata : Type := {
  format : option string;
  width : option Z;
  height : option Z
}.

(** The sharp library: reading the metadata of a buffer, and encoding a
    buffer as WebP at a quality (effort 6, lossy). *)
Record Library : Type := {
  metadata : Buffer -> Result Metadata;
  webp : Buffer -> Z -> Result Buffer
}.

(** models/image.ts *)
Definition SUPPORTED_FORMATS : list string := ["jpeg"; "jpg"; "png"].

(** The [ImageMetadata] object [getImageMetadata] builds, with the two
    fields the record of the pipeline leaves out. *)
Record FullMetadata : Type := {
  base : ImageMetadata;
  fileSize : Z;
  contentType : string
}.

(** [!s] for a string that may be undefined *)
Definition noString (s : option string) : bool :=
  match s with
  | Some s => negb (truthy s)
  | None => true
  end.

(** [!n] for a number that may be undefined *)
Definition noNumber (n : option Z) : bool :=
  match n with
  | Some z => z =? 0
  | None => true
  end.

(** [n <= 0]; false on undefined *)
Definition notPositive (n : option Z) : bool :=
  match n with
  | Some z => z <=? 0
  | None => false
  end.

Definition isFormatSupported (format : string) : bool :=
  let normalizedFormat := toLowerCase format in
  existsb (String.eqb normalizedFormat) SUPPORTED_FORMATS.

(** [formatMap[format.toLowerCase()] || "application/octet-stream"], on
    the keys the map declares. *)
Definition getContentType (format : string) : string :=
  let formatMap :=
    [("jpeg", "image/jpeg"); ("jpg", "image/jpeg"); ("png", "image/png");
     ("gif", "image/gif"); ("webp", "image/webp")] in
  match Map_get formatMap (toLowerCase format) with
  | Some contentType => contentType
  | None => "application/octet-stream"
  end.

Section Processor.

Variable sharp : Library.

Definition validateFileIntegrity (buffer : Buffer) : Outcome unit :=
  let attempt : Outcome unit :=
    if Buffer_length buffer =? 0 then
      Raises (newCorruptedImageError "Empty or invalid buffer")
    else if Buffer_length buffer <? 100 then
      Raises (newCorruptedImageError "File too small to be a valid image")
    else
      match metadata sharp buffer with
      | Throw e => Raises (Foreign e)
      | Ok md =>
          if noString (format md) then
            Raises (newCorruptedImageError "Unable to determine image format")
          else if (noNumber (width md) || noNumber (height md)
                   || notPositive (width md) || notPositive (height md))%bool then
            Raises (newCorruptedImageError "Invalid image dimensions")
          else Returns tt
      end in
  match attempt with
  | Raises (Foreign _) =>
      Raises (newCorruptedImageError "File integrity validation failed")
  | _ => attempt
  end.

Definition convertToWebP (inputBuffer : Buffer) (quality : Z) : Outcome Buffer :=
  let attempt : Outcome Buffer :=
    match validateFileIntegrity inputBuffer with
    | Raises r => Raises r
    | Returns _ =>
        let validQuality := Z.max 1 (Z.min 100 quality) in
        match webp sharp inputBuffer validQuality with
        | Ok webpBuffer => Returns webpBuffer
        | Throw e => Raises (Foreign e)
        end
    end in
  match attempt with
  | Raises (Foreign e) => Raises (newConversionError (errorMessage e))
  | _ => attempt
  end.

Definition validateImageFormat (buffer : Buffer) : bool :=
  match metadata sharp buffer with
  | Ok md =>
      match format md with
      | Some f => if truthy f then isFormatSupported f else false
      | None => false
      end
  | Throw _ => false
  end.

Definition getImageMetadata (buffer : Buffer) : Outcome FullMetadata :=
  let attempt : Outcome FullMetadata :=
    match metadata sharp buffer with
    | Throw e => Raises (Foreign e)
    | Ok md =>
        match format md, width md, height md with
        | Some f, Some w, Some h =>
            if (negb (truthy f) || (w =? 0) || (h =? 0))%bool then
              Raises (newCorruptedImageError "Invalid image: missing required metadata")
            else if negb (isFormatSupported f) then
              Raises (newUnsupportedFormatError f)
            else
              Returns {| base := Build_ImageMetadata f w h;
                         fileSize := Buffer_length buffer;
                         contentType := getContentType f |}
        | _, _, _ =>
            Raises (newCorruptedImageError "Invalid image: missing required metadata")
        end
    end in
  match attempt with
  | Raises (Foreign e) =>
      Raises (newImageProcessingError
                ("Failed to extract image metadata: " ++ errorMessage e)%string)
  | _ => attempt
  end.

End Processor.

(** A rejection as the caller's [error.message] reads it. *)
Definition thrown (r : Raised) : Thrown :=
  match r with
  | Processing _ message => Error message
  | Foreign e => e
  end.

Definition result {A B : Type} (f : A -> B) (o : Outcome A) : Result B :=
  match o with
  | Returns a => Ok (f a)
  | Raises r => Throw (thrown r)
  end.

(** The rejection is an instance of [ImageProcessingError]. *)
Definition wrapped {A : Type} (o : Outcome A) : bool :=
  match o with
  | Raises (Foreign _) => false
  | _ => true
  end.

End Sharp.

(** class SharpImageProcessor implements ImageProcessor *)
Definition SharpImageProcessor (sharp : Sharp.Library) : ImageProcessor := {|
  validateImageFormat := fun buffer => Ok (Sharp.validateImageFormat sharp buffer);
  getImageMetadata := fun buffer =>
                        Sharp.result Sharp.base (Sharp.getImageMetadata sharp buffer);
  convertToWebP := fun buffer q =>
                     Sharp.result (fun b => b) (Sharp.convertToWebP sharp buffer q)
|}.

(** A library that reads every buffer as a [w] x [h] image of format [f]
    and encodes into [n] bytes. *)
Definition fixedSharp (f : string) (w h : Z) (n : nat) : Sharp.Library := {|
  Sharp.metadata := fun _ => Ok {| Sharp.format := Some f;
                                   Sharp.width := Some w;
                                   Sharp.height := Some h |};
  Sharp.webp := fun _ _ => Ok (bytes n)
|}.


(** The conversion service with the real image processor over a library. *)
Definition sharpConversionService {W : Type} (s3 : S3Service W) (cfg : Config)
           (sharp : Sharp.Library) (dry : bool) : BatchConversionService W := {|
  s3Service := s3;
  imageProcessor := SharpImageProcessor sharp;
  config := cfg;
  dryRun := dry
|}.


(* ===================================================================== *)
(** ** services/s3Service.ts and services/expressService.ts: health       *)
(* ===================================================================== *)

Module Health.

(** What [client.send] does with a command of the health check: it
    answers, it rejects with an [S3ServiceException] of some name, or
    something else is thrown. *)
Inductive Sent : Type :=
| Answered
| Rejected (name message : string)
| Broke (e : Thrown).

Record Details : Type := {
  connection : bool;
  sourceBucketAccess : bool;
  targetBucketAccess : bool
}.

Inductive S3Status : Type := healthy | unhealthy.

Record S3Health : Type := {
  status : S3Status;
  details : Details
}.

(** [validateConnection], given what the one-key listing does. *)
Definition validateConnection (listed : Sent) : bool :=
  match listed with
  | Answered => true
  | _ => false
  end.

(** [checkBucketPermissions], given what the HeadBucket command does. *)
Definition checkBucketPermissions (bucketName : string) (head : Sent) : Result bool :=
  match head with
  | Answered => Ok true
  | Rejected name message =>
      if (String.eqb name "Forbidden" || String.eqb name "AccessDenied")%bool then
        Ok false
      else
        Throw (Error ("Bucket permission check failed for " ++ bucketName
                      ++ ": " ++ message)%string)
  | Broke e => Throw e
  end.

(** [healthCheck]; the HeadBucket command is sent only when the
    connection is valid. *)
Definition healthCheck (cfg : Config) (listed head : Sent) : S3Health :=
  let details :=
    {| connection := false; sourceBucketAccess := false; targetBucketAccess := false |} in
  let details :=
    {| connection := validateConnection listed;
       sourceBucketAccess := sourceBucketAccess details;
       targetBucketAccess := targetBucketAccess details |} in
  if connection details then
    match checkBucketPermissions (targetBucket cfg) head with
    | Ok access =>
        let details :=
          {| connection := connection details;
             sourceBucketAccess := sourceBucketAccess details;
             targetBucketAccess := access |} in
        let isHealthy :=
          (connection details && sourceBucketAccess details
           && targetBucketAccess details)%bool in
        {| status := if isHealthy then healthy else unhealthy; details := details |}
    | Throw _ => {| status := unhealthy; details := details |}
    end
  else
    let isHealthy :=
      (connection details && sourceBucketAccess details
       && targetBucketAccess details)%bool in
    {| status := if isHealthy then healthy else unhealthy; details := details |}.

(** The status of the memory, the disk and the whole service. *)
Inductive Level : Type := Healthy | Degraded | Unhealthy.

(** The thresholds of [getMemoryStats] on the percentage in use. *)
Definition memoryLevel (percentage : float) : Level :=
  if PrimFloat.ltb 90%float percentage then Unhealthy
  else if PrimFloat.ltb 80%float percentage then Degraded
  else Healthy.

(** The thresholds of [getDiskStats]; [None] when [statfs] throws. *)
Definition diskLevel (percentage : option float) : Level :=
  match percentage with
  | Some percentage =>
      if PrimFloat.ltb 95%float percentage then Unhealthy
      else if PrimFloat.ltb 85%float percentage then Degraded
      else Healthy
  | None => Healthy
  end.

(** [getHealthStatus], given the health of the store and the percentages
    of memory and disk in use. *)
Definition getHealthStatus (s3Health : S3Health) (memoryPercentage : float)
           (diskPercentage : option float) : Level :=
  let memoryStats := memoryLevel memoryPercentage in
  let diskStats := diskLevel diskPercentage in
  let isUnhealthy (l : Level) := match l with Unhealthy => true | _ => false end in
  let isDegraded (l : Level) := match l with Degraded => true | _ => false end in
  if (match status s3Health with unhealthy => true | healthy => false end
      || isUnhealthy memoryStats || isUnhealthy diskStats)%bool then Unhealthy
  else if (isDegraded memoryStats || isDegraded diskStats)%bool then Degraded
  else Healthy.

(** The status code of the GET /health route, given what
    [getHealthStatus] resolves with or throws. *)
Definition healthRoute (health : Result Level) : Z :=
  match health with
  | Ok Healthy => 200
  | Ok Degraded => 200
  | Ok Unhealthy => 503
  | Throw _ => 503
  end.

End Health.

(* ===================================================================== *)
(** ** index.ts: the life cycle of class Application                      *)
(* ===================================================================== *)

Module Lifecycle.

(** A registered shutdown handler: a name to tell it by, and what
    awaiting it gives. *)
Record Handler : Type := {
  name : string;
  outcome : Result unit
}.

(** The fields of the application its life cycle reads and writes, the
    state of the server of its express service ([listening], and the error
    [server.close] reports, if any), and the handlers called so far. *)
Record App : Type := {
  isShuttingDown : bool;
  shutdownHandlers : list Handler;
  listening : bool;
  closeError : option Thrown;
  called : list string
}.

(** [addShutdownHandler] *)
Definition addShutdownHandler (handler : Handler) (app : App) : App :=
  {| isShuttingDown := isShuttingDown app;
     shutdownHandlers := shutdownHandlers app ++ [handler];
     listening := listening app; closeError := closeError app;
     called := called app |}.

(** The [for (const handler of ...) await handler()] loop: the names
    called, and the first rejection. *)
Fixpoint runHandlers (handlers : list Handler) : list string * Result unit :=
  match handlers with
  | [] => ([], Ok tt)
  | handler :: handlers' =>
      match outcome handler with
      | Ok _ => let (names, r) := runHandlers handlers' in (name handler :: names, r)
      | Throw e => ([name handler], Throw e)
      end
  end.

(** [expressService.stopServer] *)
Definition stopServer (app : App) : App * Result unit :=
  if listening app then
    match closeError app with
    | Some err => (app, Throw err)
    | None =>
        ({| isShuttingDown := isShuttingDown app;
            shutdownHandlers := shutdownHandlers app;
            listening := false; closeError := closeError app;
            called := called app |}, Ok tt)
    end
  else (app, Ok tt).

(** [shutdown]; [reverse()] reverses the array of handlers in place. *)
Definition shutdown (app : App) : App * Result unit :=
  if isShuttingDown app then (app, Ok tt)
  else
    let handlers := rev (shutdownHandlers app) in
    let (names, r) := runHandlers handlers in
    let app :=
      {| isShuttingDown := true; shutdownHandlers := handlers;
         listening := listening app; closeError := closeError app;
         called := called app ++ names |} in
    match r with
    | Ok _ => stopServer app
    | Throw e => (app, Throw e)
    end.

(** [start], given what [startServer] does. *)
Definition start (listen : Result unit) (app : App) : App * Result unit :=
  if isShuttingDown app then
    (app, Throw (Error "Cannot start application during shutdown"))
  else
    match listen with
    | Ok _ =>
        ({| isShuttingDown := isShuttingDown app;
            shutdownHandlers := shutdownHandlers app;
            listening := true; closeError := closeError app;
            called := called app |}, Ok tt)
    | Throw e => (app, Throw e)
    end.

(** [runConversion], given the report [processAllImages] returns. *)
Definition runConversion (report : ConversionReport) (app : App)
  : Result ConversionReport :=
  if isShuttingDown app then Throw (Error "Cannot run conversion during shutdown")
  else Ok report.

End Lifecycle.

(** A running application with two handlers, the second of which fails. *)
Definition runningApp : Lifecycle.App := {|
  Lifecycle.isShuttingDown := false;
  Lifecycle.shutdownHandlers :=
    [ {| Lifecycle.name := "flush"; Lifecycle.outcome := Ok tt |};
      {| Lifecycle.name := "metrics"; Lifecycle.outcome := Throw (Error "timeout") |} ];
  Lifecycle.listening := true;
  Lifecycle.closeError := None;
  Lifecycle.called := []
|}.


(* ===================================================================== *)
(** ** config/index.ts: validation of the configuration                   *)
(* ===================================================================== *)

Module Configuration.

Record ValidationError : Type := {
  field : string;
  message : string
}.

(** The fields of a configuration that [validateConfig] reads. The
    numbers are doubles, as [parseInt] produces them: [parseInt] of a
    text without leading digits is NaN. *)
Record Config : Type := {
  region : string;
  targetBucket : string;
  quality : float;
  maxFileSize : float;
  supportedFormats : list string;
  concurrency : float;
  retryAttempts : float;
  retryDelay : float;
  level : string;
  format : string;
  port : float
}.

(** The character classes [[a-z]] and [\d]. *)
Definition isLower (a : ascii) : bool :=
  let n := nat_of_ascii a in (Nat.leb 97 n && Nat.leb n 122)%bool.

Definition isDigit (a : ascii) : bool :=
  let n := nat_of_ascii a in (Nat.leb 48 n && Nat.leb n 57)%bool.

Fixpoint every (p : ascii -> bool) (s : string) : bool :=
  match s with
  | EmptyString => true
  | String a s' => (p a && every p s')%bool
  end.

(** [[a-z0-9.-]*[a-z0-9]$] *)
Fixpoint bucketTail (s : string) : bool :=
  match s with
  | EmptyString => false
  | String a EmptyString => (isLower a || isDigit a)%bool
  | String a s' =>
      ((isLower a || isDigit a || Ascii.eqb a "." || Ascii.eqb a "-")
       && bucketTail s')%bool
  end.

(** [/^[a-z0-9][a-z0-9.-]*[a-z0-9]$/.test(s)] *)
Definition bucketRegex (s : string) : bool :=
  match s with
  | EmptyString => false
  | String a s' => ((isLower a || isDigit a) && bucketTail s')%bool
  end.

(** [\d{1,3}] on a whole segment. *)
Definition digits1to3 (s : string) : bool :=
  (Nat.leb 1 (String.length s) && Nat.leb (String.length s) 3
   && every isDigit s)%bool.

(** [/^\d{1,3}\.\d{1,3}\.\d{1,3}\.\d{1,3}$/.test(s)]: a digit is no dot,
    so the dots of [s] are the three of the pattern. *)
Definition ipRegex (s : string) : bool :=
  match split "." s with
  | [a; b; c; d] => (digits1to3 a && digits1to3 b && digits1to3 c && digits1to3 d)%bool
  | _ => false
  end.

(** [/^[a-z]{2,}-[a-z]+-\d+$/.test(s)]: no class holds the hyphen, so
    the hyphens of [s] are the two of the pattern. *)
Definition regionRegex (s : string) : bool :=
  match split "-" s with
  | [a; b; c] =>
      (Nat.leb 2 (String.length a) && every isLower a
       && Nat.leb 1 (String.length b) && every isLower b
       && Nat.leb 1 (String.length c) && every isDigit c)%bool
  | _ => false
  end.

(** [s.includes(sub)] *)
Fixpoint includes (s sub : string) : bool :=
  (String.prefix sub s
   || match s with
      | EmptyString => false
      | String _ s' => includes s' sub
      end)%bool.

Definition validateBucketName (bucketName : string) : bool :=
  if (negb (truthy bucketName) || Nat.ltb (String.length bucketName) 3
      || Nat.ltb 63 (String.length bucketName))%bool then false
  else if negb (bucketRegex bucketName) then false
  else if (includes bucketName ".." || includes bucketName "--")%bool then false
  else if ipRegex bucketName then false
  else true.

Definition validateAwsRegion (region : string) : bool :=
  if negb (truthy region) then false else regionRegex region.

Definition validateLogLevel (level : string) : bool :=
  let validLevels := ["error"; "warn"; "info"; "debug"]%string in
  existsb (String.eqb (toLowerCase level)) validLevels.

(** [errors.push(e)] *)
Definition push (errors : list ValidationError) (e : ValidationError)
  : list ValidationError := errors ++ [e].

Definition validateConfig (config : Config) : list ValidationError :=
  let errors := [] in
  let errors :=
    if negb (validateAwsRegion (region config)) then
      push errors
        {| field := "aws.region";
           message := "Invalid AWS region format. Expected format: us-east-1, eu-west-1, etc." |}
    else errors in
  let errors :=
    if negb (validateBucketName (targetBucket config)) then
      push errors
        {| field := "aws.targetBucket";
           message := "Invalid S3 bucket name. Must be 3-63 characters, lowercase letters, numbers, hyphens, and periods only." |}
    else errors in
  let errors :=
    if (PrimFloat.ltb (quality config) 1 || PrimFloat.ltb 100 (quality config))%bool then
      push errors
        {| field := "conversion.quality";
           message := "WebP quality must be between 1 and 100" |}
    else errors in
  let errors :=
    if PrimFloat.leb (maxFileSize config) 0 then
      push errors
        {| field := "conversion.maxFileSize";
           message := "Maximum file size must be greater than 0" |}
    else errors in
  let errors :=
    if Nat.eqb (List.length (supportedFormats config)) 0 then
      push errors
        {| field := "conversion.supportedFormats";
           message := "Supported formats must be a non-empty array" |}
    else errors in
  let errors :=
    if (PrimFloat.ltb (concurrency config) 1
        || PrimFloat.ltb 50 (concurrency config))%bool then
      push errors
        {| field := "processing.concurrency";
           message := "Concurrency must be between 1 and 50" |}
    else errors in
  let errors :=
    if (PrimFloat.ltb (retryAttempts config) 0
        || PrimFloat.ltb 10 (retryAttempts config))%bool then
      push errors
        {| field := "processing.retryAttempts";
           message := "Retry attempts must be between 0 and 10" |}
    else errors in
  let errors :=
    if (PrimFloat.ltb (retryDelay config) 100
        || PrimFloat.ltb 30000 (retryDelay config))%bool then
      push errors
        {| field := "processing.retryDelay";
           message := "Retry delay must be between 100ms and 30000ms" |}
    else errors in
  let errors :=
    if negb (validateLogLevel (level config)) then
      push errors
        {| field := "logging.level";
           message := "Log level must be one of: error, warn, info, debug" |}
    else errors in
  let validFormats := ["json"; "simple"; "combined"]%string in
  let errors :=
    if negb (existsb (String.eqb (format config)) validFormats) then
      push errors
        {| field := "logging.format";
           message := "Log format must be one of: json, simple, combined" |}
    else errors in
  let errors :=
    if (PrimFloat.ltb (port config) 1 || PrimFloat.ltb 65535 (port config))%bool then
      push errors
        {| field := "server.port";
           message := "Server port must be between 1 and 65535" |}
    else errors in
  errors.

(** The tail of [loadConfig]: the configuration is returned when no
    error is reported, and a [ConfigurationError] holding the errors is
    thrown otherwise. *)
Definition loadConfig (config : Config) : Config + list ValidationError :=
  let errors := validateConfig config in
  if Nat.ltb 0 (List.length errors) then inr errors else inl config.

End Configuration.

(** A configuration with every number replaced by [n]. *)
Definition withNumbers (n : float) (config : Configuration.Config)
  : Configuration.Config := {|
  Configuration.region := Configuration.region config;
  Configuration.targetBucket := Configuration.targetBucket config;
  Configuration.quality := n;
  Configuration.maxFileSize := n;
  Configuration.supportedFormats := Configuration.supportedFormats config;
  Configuration.concurrency := n;
  Configuration.retryAttempts := n;
  Configuration.retryDelay := n;
  Configuration.level := Configuration.level config;
  Configuration.format := Configuration.format config;
  Configuration.port := n
|}.

(** The errors that are about a text or a list, not about a number. *)
Definition aboutText (e : Configuration.ValidationError) : bool :=
  existsb (String.eqb (Configuration.field e))
          ["aws.region"; "aws.targetBucket"; "conversion.supportedFormats";
           "logging.level"; "logging.format"]%string.

(* ===================================================================== *)
(** * Properties                                                          *)
(* ===================================================================== *)

(** ** Target-key derivation *)

Lemma lastIndexOfFrom_absent (c : ascii) (s : string) :
  forall i found, ~ occurs c s -> lastIndexOfFrom c s i found = found.
Proof.
  induction s as [|a s IH]; intros i found Hno; simpl; [reflexivity|].
  unfold occurs in Hno; simpl in Hno.
  destruct (Ascii.eqb_spec a c) as [->|Hne].
  - exfalso; apply Hno; now left.
  - apply IH. intro Hin; apply Hno; now right.
Qed.

Lemma lastIndexOfFrom_last (c : ascii) (base ext : string) :
  ~ occurs c ext ->
  forall i found,
    lastIndexOfFrom c (base ++ String c ext) i found
    = i + Z.of_nat (String.length base).
Proof.
  intros Hno. induction base as [|a base IH]; intros i found; simpl.
  - rewrite Ascii.eqb_refl, lastIndexOfFrom_absent by assumption. lia.
  - rewrite IH. lia.
Qed.

Lemma substring0_prefix (base rest : string) :
  substring0 (base ++ rest) (Z.of_nat (String.length base)) = base.
Proof.
  unfold substring0. rewrite Nat2Z.id.
  induction base as [|a base IH]; simpl.
  - destruct rest; reflexivity.
  - now rewrite IH.
Qed.

(** C8. [generateTargetKey] appends ".webp" to a key without a dot, and
    otherwise replaces everything from the last dot onward by ".webp":
    "a/b/photo.JPG" gives "a/b/photo.webp" and "noext" gives
    "noext.webp". *)
Theorem generateTargetKey_spec (sourceKey : string) :
  (~ occurs "." sourceKey ->
   generateTargetKey sourceKey = (sourceKey ++ ".webp")%string)
  /\ (forall base ext,
         sourceKey = (base ++ String "." ext)%string -> ~ occurs "." ext ->
         generateTargetKey sourceKey = (base ++ ".webp")%string)
  /\ generateTargetKey "a/b/photo.JPG" = "a/b/photo.webp"
  /\ generateTargetKey "noext" = "noext.webp".
Proof.
  repeat split; try reflexivity.
  - intros Hno. unfold generateTargetKey, lastIndexOf.
    now rewrite lastIndexOfFrom_absent.
  - intros base ext -> Hno. unfold generateTargetKey, lastIndexOf.
    rewrite lastIndexOfFrom_last by assumption.
    replace (0 + Z.of_nat (String.length base) =? -1) with false
      by (symmetry; apply Z.eqb_neq; lia).
    now rewrite Z.add_0_l, substring0_prefix.
Qed.

Lemma generateTargetKey_spec_witness :
  generateTargetKey "noext" = "noext.webp"
  /\ generateTargetKey "archive.tar.gz" = "archive.tar.webp".
Proof.
  split.
  - apply (proj1 (generateTargetKey_spec "noext")).
    unfold occurs; simpl; intuition discriminate.
  - apply (proj1 (proj2 (generateTargetKey_spec "archive.tar.gz")) "archive.tar" "gz").
    + reflexivity.
    + unfold occurs; simpl; intuition discriminate.
Defined.

(** ** The batch scheduler *)

Lemma processImageWithTracking_totalImages image o q r :
  totalImages (snd (fst (processImageWithTracking image o q r))) = totalImages r.
Proof.
  destruct o as [result|e]; simpl; [|reflexivity].
  destruct (status result); simpl; try reflexivity.
  destruct (error result) as [m|]; [destruct (truthy m)|]; reflexivity.
Qed.

Lemma processImageWithTracking_counted image o q r :
  counted (snd (fst (processImageWithTracking image o q r))) = counted r + 1.
Proof.
  unfold counted.
  destruct o as [result|e]; simpl; [|lia].
  destruct (status result); simpl; try lia.
  destruct (error result) as [m|]; [destruct (truthy m)|]; simpl; lia.
Qed.

Lemma step_totalImages st ev st' :
  step st ev = Some st' -> totalImages (report st') = totalImages (report st).
Proof.
  destruct ev as [|p o|k]; simpl.
  - destruct (pending (processingQueue st)); [discriminate|].
    intros [= <-]; reflexivity.
  - destruct (nth_error (promises st) p) as [[image|result]|]; try discriminate.
    pose proof (processImageWithTracking_totalImages image o (processingQueue st) (report st)) as H.
    destruct (processImageWithTracking image o (processingQueue st) (report st)) as [[q' r'] res].
    intros [= <-]; exact H.
  - destruct (pending (processingQueue st)); [|discriminate].
    destruct (Map_get (activePromises st) k) as [p|]; [|discriminate].
    destruct (nth_error (promises st) p) as [[image|result]|]; try discriminate.
    intros [= <-]; reflexivity.
Qed.

Lemma processConcurrentBatches_totalImages schedule :
  forall st st',
    processConcurrentBatches st schedule = Some st' ->
    totalImages (report st') = totalImages (report st).
Proof.
  induction schedule as [|ev schedule IH]; intros st st'; simpl.
  - destruct (loopCondition st); [discriminate|]. now intros [= <-].
  - destruct (loopCondition st); [|discriminate].
    destruct (step st ev) as [st1|] eqn:Hstep; [|discriminate].
    intros H. rewrite (IH _ _ H). now apply step_totalImages with ev.
Qed.

Lemma withAverage_totalImages r : totalImages (withAverage r) = totalImages r.
Proof. unfold withAverage. now destruct (_ && _)%bool. Qed.

Lemma withAverage_counted r : counted (withAverage r) = counted r.
Proof. unfold withAverage. now destruct (_ && _)%bool. Qed.

(** *** Every run can be completed *)

Lemma settle_length ps : forall p s, List.length (settle ps p s) = List.length ps.
Proof.
  induction ps as [|x ps IH]; intros [|p] s; simpl; auto.
Qed.

Lemma Map_set_bound {V} (P : V -> Prop) (m : list (string * V)) k v :
  Forall (fun e => P (snd e)) m -> P v ->
  Forall (fun e => P (snd e)) (Map_set m k v).
Proof.
  induction m as [|[k' v'] m IH]; intros Hm Hv; simpl.
  - constructor; [exact Hv|constructor].
  - inversion Hm; subst. destruct (String.eqb k k'); constructor; auto.
Qed.

Lemma Map_set_length {V} (m : list (string * V)) k v :
  (List.length (Map_set m k v) <= S (List.length m))%nat.
Proof.
  induction m as [|[k' v'] m IH]; simpl; [lia|].
  destruct (String.eqb k k'); simpl; lia.
Qed.

Lemma running_settle ps :
  forall p image s,
    nth_error ps p = Some (Running image) ->
    List.length (filter (fun x => match x with Running _ => true | Resolved _ => false end)
                        (settle ps p (Resolved s)))
    = Nat.pred (List.length (filter (fun x => match x with Running _ => true | Resolved _ => false end) ps))
    /\ (0 < List.length (filter (fun x => match x with Running _ => true | Resolved _ => false end) ps))%nat.
Proof.
  induction ps as [|x ps IH]; intros [|p] image s; simpl; try discriminate.
  - intros [= ->]; simpl. split; lia.
  - intros H. destruct (IH p image s H) as [E L].
    destruct x; simpl; rewrite E; split; lia.
Qed.

Lemma filter_length_le {A} (f : A -> bool) (l : list A) :
  (List.length (filter f l) <= List.length l)%nat.
Proof.
  induction l as [|x l IH]; simpl; [lia|]. destruct (f x); simpl; lia.
Qed.

Lemma run_exists (n : nat) :
  forall st, (remaining st <= n)%nat -> activeBound st ->
             exists schedule st', processConcurrentBatches st schedule = Some st'.
Proof.
  induction n as [|n IH]; intros st Hn Hb.
  - exists [], st. unfold remaining in Hn. simpl. unfold loopCondition.
    destruct (pending (processingQueue st)); simpl in *; [|lia].
    destruct (activePromises st); simpl in *; [reflexivity|lia].
  - destruct (pending (processingQueue st)) as [|image rest] eqn:Hp.
    + destruct (activePromises st) as [|[k p] m] eqn:Ha.
      * exists [], st. simpl. unfold loopCondition. now rewrite Hp, Ha.
      * assert (Hlt : (p < List.length (promises st))%nat).
        { unfold activeBound in Hb. rewrite Ha in Hb. now inversion Hb. }
        destruct (nth_error (promises st) p) as [[img|res]|] eqn:Hnth.
        -- (* the pipeline behind the first entry finishes *)
           set (o := @Throw ConversionResult NonError).
           assert (Hstep : exists st1, step st (PipelineDone p o) = Some st1
                                       /\ (remaining st1 < remaining st)%nat
                                       /\ activeBound st1).
           { cbn [step]. rewrite Hnth. subst o. cbn [processImageWithTracking].
             eexists; split; [reflexivity|]. split.
             - unfold remaining, inFlight; cbn.
               destruct (running_settle (promises st) p img
                          {| sourceKey := key img; targetKey := generateTargetKey (key img);
                             originalSize := size img; convertedSize := 0;
                             compressionRatio := 0%float; status := Failed;
                             error := Some "Unknown error" |} Hnth) as [E L].
               cbn in E. rewrite E. lia.
             - unfold activeBound in *; cbn. now rewrite settle_length. }
           destruct Hstep as (st1 & Hstep & Hlt1 & Hb1).
           destruct (IH st1) as (schedule & st' & Hrun); [lia|assumption|].
           exists (PipelineDone p o :: schedule), st'.
           cbn [processConcurrentBatches]. unfold loopCondition at 1.
           rewrite Hp, Ha. simpl negb. simpl orb. cbv iota. now rewrite Hstep.
        -- (* the first entry's promise has resolved: the race is won *)
           assert (Hstep : exists st1, step st (RaceWon k) = Some st1
                                       /\ (remaining st1 < remaining st)%nat
                                       /\ activeBound st1).
           { eexists. cbn [step]. rewrite Hp, Ha. cbn [Map_get].
             rewrite String.eqb_refl, Hnth. split; [reflexivity|]. split.
             - unfold remaining, inFlight.
               cbn [processingQueue pending activePromises promises].
               rewrite Hp, Ha. unfold Map_delete. cbn [filter fst].
               rewrite String.eqb_refl. cbn [negb List.length].
               pose proof (filter_length_le (fun e => negb (String.eqb k (fst e))) m).
               lia.
             - unfold activeBound in *. cbn [activePromises promises].
               rewrite Ha in *. unfold Map_delete. cbn [filter fst].
               rewrite String.eqb_refl. cbn [negb]. inversion Hb as [|? ? ? Hm]; subst.
               apply Forall_forall. intros e He. apply filter_In in He.
               rewrite Forall_forall in Hm. now apply Hm. }
           destruct Hstep as (st1 & Hstep & Hlt1 & Hb1).
           destruct (IH st1) as (schedule & st' & Hrun); [lia|assumption|].
           exists (RaceWon k :: schedule), st'.
           cbn [processConcurrentBatches]. unfold loopCondition at 1.
           rewrite Hp, Ha. simpl negb. simpl orb. cbv iota. now rewrite Hstep.
        -- apply nth_error_None in Hnth. lia.
    + (* an object is waiting: the inner loop dispatches it *)
      assert (Hstep : exists st1, step st Dispatch = Some st1
                                  /\ (remaining st1 < remaining st)%nat
                                  /\ activeBound st1).
      { simpl. rewrite Hp. eexists; split; [reflexivity|]. split.
        - unfold remaining, inFlight; simpl. rewrite Hp; simpl.
          rewrite filter_app, length_app; simpl.
          pose proof (Map_set_length (activePromises st) (key image)
                                     (List.length (promises st))). lia.
        - unfold activeBound in *; simpl. rewrite length_app; simpl.
          apply (Map_set_bound (fun v => (v < List.length (promises st) + 1)%nat)).
          + eapply Forall_impl; [|exact Hb]. simpl; intros; lia.
          + lia. }
      destruct Hstep as (st1 & Hstep & Hlt1 & Hb1).
      destruct (IH st1) as (schedule & st' & Hrun); [lia|assumption|].
      exists (Dispatch :: schedule), st'.
      cbn [processConcurrentBatches]. unfold loopCondition at 1.
      rewrite Hp. simpl negb. simpl orb. cbv iota. now rewrite Hstep.
Qed.

Lemma processAllImages_returns cfg listed :
  exists schedule r, processAllImages cfg listed schedule = Some r.
Proof.
  destruct listed as [[|image images]|e].
  - exists [], emptyReport. reflexivity.
  - destruct (run_exists (remaining (initialise cfg (image :: images)))
                         (initialise cfg (image :: images)))
      as (schedule & st' & Hrun); [lia|constructor|].
    exists schedule, (withAverage (report st')). simpl in *. now rewrite Hrun.
  - eexists [], _. reflexivity.
Qed.

(** *** Counting *)

Lemma Map_get_set_same {V} (m : list (string * V)) k v :
  Map_get (Map_set m k v) k = Some v.
Proof.
  induction m as [|[k' v'] m IH]; simpl.
  - now rewrite String.eqb_refl.
  - destruct (String.eqb k k') eqn:E; simpl.
    + now rewrite String.eqb_refl.
    + now rewrite E.
Qed.

Lemma Map_get_set_other {V} (m : list (string * V)) k k' v :
  k' <> k -> Map_get (Map_set m k v) k' = Map_get m k'.
Proof.
  intros Hne. induction m as [|[k0 v0] m IH]; simpl.
  - apply String.eqb_neq in Hne. now rewrite Hne.
  - destruct (String.eqb_spec k k0) as [->|Hk]; simpl.
    + apply String.eqb_neq in Hne. now rewrite Hne.
    + now rewrite IH.
Qed.

Lemma Map_get_delete_other {V} (m : list (string * V)) k k' :
  k' <> k -> Map_get (Map_delete m k) k' = Map_get m k'.
Proof.
  intros Hne. induction m as [|[k0 v0] m IH]; simpl; [reflexivity|].
  destruct (String.eqb_spec k k0) as [->|Hk]; simpl.
  - apply String.eqb_neq in Hne. now rewrite Hne.
  - now rewrite IH.
Qed.

Lemma nth_error_settle ps :
  forall p s q,
    nth_error (settle ps p s) q
    = if (Nat.eqb p q && Nat.ltb p (List.length ps))%bool then Some s
      else nth_error ps q.
Proof.
  induction ps as [|x ps IH]; intros [|p] s [|q]; simpl; try reflexivity.
  - now destruct (Nat.eqb p q).
  - rewrite IH. reflexivity.
Qed.

Lemma resolvedCount_app ps qs :
  resolvedCount (ps ++ qs) = (resolvedCount ps + resolvedCount qs)%nat.
Proof. unfold resolvedCount. now rewrite filter_app, length_app. Qed.

Lemma resolvedCount_settle ps :
  forall p image r,
    nth_error ps p = Some (Running image) ->
    resolvedCount (settle ps p (Resolved r)) = S (resolvedCount ps).
Proof.
  unfold resolvedCount.
  induction ps as [|x ps IH]; intros [|p] image r; simpl; try discriminate.
  - now intros [= ->].
  - intros H. destruct x; simpl; now rewrite (IH p image r H).
Qed.

Lemma resolvedCount_all ps :
  (forall p image, nth_error ps p <> Some (Running image)) ->
  resolvedCount ps = List.length ps.
Proof.
  unfold resolvedCount. induction ps as [|x ps IH]; intros H; simpl; [reflexivity|].
  destruct x as [image|r].
  - exfalso. now apply (H O image).
  - simpl. f_equal. apply IH. intros p image. apply (H (S p) image).
Qed.

Lemma step_accounted n st ev st' :
  step st ev = Some st' -> accounted n st -> accounted n st'.
Proof.
  unfold accounted. destruct ev as [|p o|k]; cbn [step].
  - destruct (pending (processingQueue st)) as [|image rest]; [discriminate|].
    intros [= <-] [Hc Hn]; cbn [report promises processingQueue pending].
    rewrite resolvedCount_app, length_app. cbn [List.length] in *.
    split; [rewrite Hc; f_equal; unfold resolvedCount; simpl; lia | lia].
  - destruct (nth_error (promises st) p) as [[image|result]|] eqn:Hnth; try discriminate.
    pose proof (processImageWithTracking_counted image o (processingQueue st) (report st)) as Hcnt.
    assert (Hpend : pending (fst (fst (processImageWithTracking image o
                                        (processingQueue st) (report st))))
                    = pending (processingQueue st)).
    { destruct o as [result|e]; cbn; [destruct (status result)|]; reflexivity. }
    destruct (processImageWithTracking image o (processingQueue st) (report st))
      as [[q' r'] res].
    intros [= <-] [Hc Hn]; cbn [report promises processingQueue pending fst snd] in *.
    rewrite (resolvedCount_settle _ _ _ _ Hnth), settle_length, Hcnt, Hc, Hpend.
    split; [lia | assumption].
  - destruct (pending (processingQueue st)) eqn:Hp; [|discriminate].
    destruct (Map_get (activePromises st) k) as [p|]; [|discriminate].
    destruct (nth_error (promises st) p) as [[image|result]|]; try discriminate.
    intros [= <-] [Hc Hn]; cbn [report promises processingQueue pending].
    now split.
Qed.

Lemma step_tracked st ev st' :
  step st ev = Some st' -> freshKeys st -> tracked st ->
  freshKeys st' /\ tracked st'.
Proof.
  unfold freshKeys, tracked. destruct ev as [|p o|k]; cbn [step].
  - destruct (pending (processingQueue st)) as [|image rest] eqn:Hp; [discriminate|].
    intros [= <-] [Hnd Hfresh] Htr; cbn.
    assert (Hcases : forall q img,
               nth_error (promises st ++ [Running image]) q = Some (Running img) ->
               nth_error (promises st) q = Some (Running img)
               \/ (q = List.length (promises st) /\ img = image)).
    { intros q img H.
      destruct (Nat.lt_ge_cases q (List.length (promises st))) as [Hlt|Hge].
      - left. now rewrite nth_error_app1 in H.
      - right. rewrite nth_error_app2 in H by assumption.
        destruct (q - List.length (promises st))%nat as [|d] eqn:Hd; simpl in H.
        + injection H as <-. split; [lia|reflexivity].
        + now destruct d. }
    simpl in Hnd. inversion Hnd as [|? ? Hnotin Hnd']; subst.
    repeat split.
    + assumption.
    + intros q img H Hin. destruct (Hcases q img H) as [Hold|[-> ->]].
      * apply (Hfresh q img Hold). simpl. now right.
      * contradiction.
    + intros q img H. destruct (Hcases q img H) as [Hold|[-> ->]].
      * rewrite Map_get_set_other; [now apply Htr|].
        intros E. apply (Hfresh q img Hold). simpl. now left.
      * apply Map_get_set_same.
  - destruct (nth_error (promises st) p) as [[image|result]|] eqn:Hnth; try discriminate.
    assert (Hpend : pending (fst (fst (processImageWithTracking image o
                                        (processingQueue st) (report st))))
                    = pending (processingQueue st)).
    { destruct o as [result|e]; cbn; [destruct (status result)|]; reflexivity. }
    destruct (processImageWithTracking image o (processingQueue st) (report st))
      as [[q' r'] res].
    intros [= <-] [Hnd Hfresh] Htr; cbn in *. rewrite Hpend.
    assert (Hold : forall q img,
               nth_error (settle (promises st) p (Resolved res)) q = Some (Running img) ->
               nth_error (promises st) q = Some (Running img)).
    { intros q img. rewrite nth_error_settle.
      destruct (Nat.eqb p q && Nat.ltb p (List.length (promises st)))%bool;
        [discriminate|trivial]. }
    repeat split; [assumption| |]; intros q img H; apply Hold in H; eauto.
  - destruct (pending (processingQueue st)) eqn:Hp; [|discriminate].
    destruct (Map_get (activePromises st) k) as [p|] eqn:Hget; [|discriminate].
    destruct (nth_error (promises st) p) as [[image|result]|] eqn:Hnth; try discriminate.
    intros [= <-] [Hnd Hfresh] Htr; cbn.
    repeat split; [assumption|now auto|].
    intros q img H. rewrite Map_get_delete_other; [now apply Htr|].
    intros E. pose proof (Htr q img H) as Hq. rewrite E, Hget in Hq.
    injection Hq as ->. rewrite Hnth in H. discriminate.
Qed.

Lemma processConcurrentBatches_counts n schedule :
  forall st st',
    processConcurrentBatches st schedule = Some st' ->
    accounted n st -> freshKeys st -> tracked st ->
    counted (report st') = Z.of_nat n.
Proof.
  induction schedule as [|ev schedule IH]; intros st st'; cbn [processConcurrentBatches].
  - destruct (loopCondition st) eqn:Hloop; [discriminate|].
    intros [= <-] [Hc Hn] _ Htr. unfold loopCondition in Hloop.
    destruct (pending (processingQueue st)); [|discriminate].
    destruct (activePromises st) eqn:Ha; [|discriminate].
    rewrite Hc, resolvedCount_all; [simpl in Hn; now rewrite Hn|].
    intros p image H. specialize (Htr p image H). rewrite Ha in Htr. discriminate.
  - destruct (loopCondition st); [|discriminate].
    destruct (step st ev) as [st1|] eqn:Hstep; [|discriminate].
    intros Hrun Hacc Hfresh Htr.
    destruct (step_tracked _ _ _ Hstep Hfresh Htr) as [Hfresh1 Htr1].
    exact (IH _ _ Hrun (step_accounted _ _ _ _ Hstep Hacc) Hfresh1 Htr1).
Qed.

(** *** Statements about whole runs *)

Lemma dispatch_all (n : nat) :
  forall st,
    List.length (pending (processingQueue st)) = n ->
    exists st',
      steps st (repeat Dispatch n) = Some st'
      /\ inFlight st' = (inFlight st + n)%nat
      /\ this_config st' = this_config st.
Proof.
  induction n as [|n IH]; intros st Hlen.
  - exists st. repeat split. lia.
  - destruct (pending (processingQueue st)) as [|image rest] eqn:Hp; [discriminate|].
    cbn [repeat steps step]. rewrite Hp.
    match goal with |- context [steps ?s _] => destruct (IH s) as (st' & Hrun & Hin & Hcfg) end.
    + cbn. simpl in Hlen. lia.
    + exists st'. split; [exact Hrun|]. split; [|exact Hcfg].
      rewrite Hin. unfold inFlight; cbn. rewrite filter_app, length_app; cbn. lia.
Qed.

(** C1 (the code departs from the claim). The scheduler never reads the
    concurrency limit: whatever [config.processing.concurrency] is, the
    inner loop starts the pipeline of every listed object before the first
    [Promise.race], so all of them are in flight together; with a limit of
    3 and ten objects, ten pipelines run and the processing set and
    [activePromises] hold ten keys. *)
Theorem concurrency_limit_not_enforced :
  (forall cfg images,
      exists st,
        steps (initialise cfg images) (repeat Dispatch (List.length images)) = Some st
        /\ inFlight st = List.length images
        /\ concurrency (this_config st) = concurrency cfg)
  /\ (exists st,
         steps (initialise limitThree tenObjects) (repeat Dispatch 10) = Some st
         /\ concurrency (this_config st) = 3
         /\ inFlight st = 10%nat
         /\ List.length (processing (processingQueue st)) = 10%nat
         /\ List.length (activePromises st) = 10%nat).
Proof.
  split.
  - intros cfg images.
    destruct (dispatch_all (List.length images) (initialise cfg images) eq_refl)
      as (st & Hrun & Hin & Hcfg).
    exists st. split; [exact Hrun|]. split; [exact Hin|]. now rewrite Hcfg.
  - eexists. split; [vm_compute; reflexivity|]. repeat split.
Qed.

(** When the listed keys are pairwise distinct, every run of
    [processAllImages] that returns has counted each object once. *)
Lemma distinct_keys_counted_once (cfg : Config) (images : list S3Object)
      (schedule : list Event) (r : ConversionReport) :
  NoDup (map key images) ->
  processAllImages cfg (Ok images) schedule = Some r ->
  successful r + failed r + skipped r = Z.of_nat (List.length images).
Proof.
  intros Hnd. destruct images as [|image images]; cbn [processAllImages].
  - now intros [= <-].
  - destruct (processConcurrentBatches _ schedule) as [st|] eqn:Hrun; [|discriminate].
    intros [= <-]. fold (counted (withAverage (report st))).
    rewrite withAverage_counted.
    apply (processConcurrentBatches_counts _ _ _ _ Hrun).
    + split; [reflexivity|]. cbn. lia.
    + split; [exact Hnd|]. intros p img H. now destruct p.
    + intros p img H. now destruct p.
Qed.

(** C9. When the listing throws, [processAllImages] returns a report
    (nothing propagates) whose counters and sizes are zero and whose error
    list is the single line describing the failure: the words
    Batch conversion failed, a colon and a space, followed by the message
    of the error thrown, or by Unknown error when what was thrown is no
    [Error].  For the real service, whose [listImages] rethrows an
    exception of S3 as an [Error], the line names the bucket and carries
    the message of S3. *)
Theorem listing_failure_report (cfg : Config) (error : Thrown) (schedule : list Event) :
  exists r,
    processAllImages cfg (Throw error) schedule = Some r
    /\ successful r = 0 /\ failed r = 0 /\ skipped r = 0
    /\ totalSizeBefore r = 0 /\ totalSizeAfter r = 0
    /\ List.length (errors r) = 1%nat
    /\ errors r
       = [match error with
          | S3ServiceException message => ("Batch conversion failed: " ++ message)%string
          | Error message => ("Batch conversion failed: " ++ message)%string
          | NonError => "Batch conversion failed: Unknown error"%string
          end].
Proof.
  eexists. split; [reflexivity|]. repeat split.
  destruct error; reflexivity.
Qed.

Lemma listing_failure_report_witness :
  exists r,
    processAllImages defaultConfig
      (snd (S3.listImages defaultConfig "my-webp-bucket" EmptyString deniedStore))
      [] = Some r
    /\ successful r + failed r + skipped r = 0
    /\ errors r
       = ["Batch conversion failed: Failed to list images from bucket my-webp-bucket: Access Denied, duration: 12"%string].
Proof.
  destruct (listing_failure_report defaultConfig
              (Error "Failed to list images from bucket my-webp-bucket: Access Denied, duration: 12")
              [])
    as (r & Hrun & Hs & Hf & Hk & _ & _ & _ & Herr).
  exists r. split; [exact Hrun|]. split; [lia|exact Herr].
Defined.

(** C10. Whatever is listed, every report [processAllImages] returns has
    [totalImages] equal to zero, and a run that returns exists. *)
Theorem totalImages_never_assigned (cfg : Config) (listed : Result (list S3Object)) :
  (forall schedule r,
      processAllImages cfg listed schedule = Some r -> totalImages r = 0)
  /\ (exists schedule r, processAllImages cfg listed schedule = Some r).
Proof.
  split; [|apply processAllImages_returns].
  intros schedule r. destruct listed as [[|image images]|e]; cbn [processAllImages].
  - now intros [= <-].
  - destruct (processConcurrentBatches _ schedule) as [st|] eqn:Hrun; [|discriminate].
    intros [= <-]. rewrite withAverage_totalImages.
    now rewrite (processConcurrentBatches_totalImages _ _ _ Hrun).
  - now intros [= <-].
Qed.

Lemma totalImages_never_assigned_witness :
  exists r,
    processAllImages limitThree (Ok tenObjects) tenObjectsSchedule = Some r
    /\ successful r = 10
    /\ totalImages r = 0.
Proof.
  eexists. split; [vm_compute; reflexivity|]. split; [reflexivity|].
  apply (proj1 (totalImages_never_assigned limitThree (Ok tenObjects))
               tenObjectsSchedule).
  vm_compute; reflexivity.
Defined.

(** ** The per-item pipeline *)

Example listImages_photoStore :
  snd (S3.listImages defaultConfig "my-webp-bucket" EmptyString photoStore) = Ok [photo].
Proof. reflexivity. Qed.

(** *** The skip check never sees a target key *)

Lemma split_nonempty c s : split c s <> [].
Proof.
  destruct s as [|a s]; simpl; [discriminate|].
  destruct (Ascii.eqb a c); [discriminate|].
  destruct (split c s); discriminate.
Qed.

Lemma split_after_separator c ext base :
  exists seg segs,
    split c (base ++ String c ext) = seg :: segs
    /\ segs <> [] /\ pop segs = pop (split c ext).
Proof.
  induction base as [|a base IH]; simpl.
  - rewrite Ascii.eqb_refl. exists EmptyString, (split c ext).
    repeat split. apply split_nonempty.
  - destruct IH as (seg & segs & E & Hne & Hpop). rewrite E.
    destruct (Ascii.eqb a c).
    + exists EmptyString, (seg :: segs). repeat split; [discriminate|].
      simpl. destruct segs; [contradiction|assumption].
    + exists (String a seg), segs. repeat split; assumption.
Qed.

Lemma pop_split_webp base :
  pop (split "." (base ++ ".webp")) = Some "webp".
Proof.
  destruct (split_after_separator "." "webp" base) as (seg & segs & E & Hne & Hpop).
  change (base ++ ".webp")%string with (base ++ String "." "webp")%string.
  rewrite E. simpl. destruct segs; [contradiction|]. exact Hpop.
Qed.

Lemma isImageFile_targetKey cfg sourceKey :
  S3.isImageFile cfg (generateTargetKey sourceKey)
  = Set_has (S3.supportedExtensions cfg) "webp".
Proof.
  unfold S3.isImageFile, generateTargetKey.
  destruct (lastIndexOf sourceKey "." =? -1); now rewrite pop_split_webp.
Qed.

Lemma listImages_only_images cfg contents :
  forall images,
    Forall (fun image => S3.isImageFile cfg (key image) = true) images ->
    Forall (fun image => S3.isImageFile cfg (key image) = true)
           (fold_left (S3.pushIfImage cfg) contents images).
Proof.
  induction contents as [|o contents IH]; intros images H; simpl; [exact H|].
  apply IH. unfold S3.pushIfImage.
  destruct (_ && _)%bool; [|exact H].
  destruct (S3.isImageFile cfg (S3.Key o)) eqn:E; [|exact H].
  apply Forall_app. split; [exact H|]. constructor; [exact E|constructor].
Qed.

(** With a configuration whose supported formats do not include webp
    (the default: jpeg, jpg, png), [skipIfExists] answers false for every
    target key, whatever the bucket holds. *)
Lemma skipIfExists_targetKey_false cfg ip dry sourceKey w :
  Set_has (S3.supportedExtensions cfg) "webp" = false ->
  snd (skipIfExists (awsConversionService cfg ip dry) (generateTargetKey sourceKey) w)
  = false.
Proof.
  intros Hwebp. unfold skipIfExists; cbn. unfold S3.listImages.
  destruct (S3.faults w _); cbn; [reflexivity|].
  pose proof (listImages_only_images cfg
                (S3.Contents w (targetBucket cfg) (generateTargetKey sourceKey)) []
                (Forall_nil _)) as Hall.
  destruct (existsb _ _) eqn:E; [|reflexivity].
  apply existsb_exists in E. destruct E as (image & Hin & Heq).
  apply String.eqb_eq in Heq. rewrite Forall_forall in Hall.
  specialize (Hall image Hin). rewrite Heq, isImageFile_targetKey, Hwebp in Hall.
  discriminate.
Qed.

(** C2 (the code departs from the claim). Default configuration, dry-run
    off, a bucket with the 1000-byte "a/b/photo.JPG": the first run
    succeeds and stores "a/b/photo.webp"; the second run on the same object
    lists that key, drops it because "webp" is not a supported image
    extension, does not skip, downloads and uploads again, and returns
    success with 600 converted bytes. *)
Theorem second_run_converts_again :
  let this := awsConversionService defaultConfig (codec 600) false in
  let first := processImage this photo photoStore in
  let second := processImage this photo (fst first) in
  status (snd first) = Success
  /\ stored (fst first) "my-webp-bucket" "a/b/photo.webp" = true
  /\ transfers (fst first) = 2%nat
  /\ status (snd second) = Success
  /\ convertedSize (snd second) = 600
  /\ transfers (fst second) = 4%nat.
Proof.
  vm_compute. repeat split.
Qed.

Ltac split_calls :=
  repeat match goal with
         | |- context [match ?x with _ => _ end] => destruct x eqn:?
         | |- context [if ?b then _ else _] => destruct b eqn:?
         end.

Lemma processImage_never_skips cfg ip dry s3Object w :
  Set_has (S3.supportedExtensions cfg) "webp" = false ->
  status (snd (processImage (awsConversionService cfg ip dry) s3Object w)) <> Skipped.
Proof.
  intros Hwebp. unfold processImage.
  pose proof (skipIfExists_targetKey_false cfg ip dry (key s3Object) w Hwebp) as Hskip.
  destruct (skipIfExists _ _ w) as [w1 found]. simpl in Hskip. subst found.
  split_calls; simpl; discriminate.
Qed.

(** C7. A run that reaches the encode step reports
    (originalSize - convertedSize) / originalSize as its compression
    ratio, in the arithmetic of doubles, whatever happens afterwards; the
    value is not clamped: 1000 bytes encoded into 1200 give the double
    -0.2, which is negative. *)
Theorem compressionRatio_formula {W : Type} (this : BatchConversionService W)
        (s3Object : S3Object) (w w1 w2 : W)
        (imageBuffer webpBuffer : Buffer) (metadata : ImageMetadata) :
  skipIfExists this (generateTargetKey (key s3Object)) w = (w1, false) ->
  downloadImage (s3Service this) (targetBucket (config this)) (key s3Object) w1
  = (w2, Ok imageBuffer) ->
  validateImageFormat (imageProcessor this) imageBuffer = Ok true ->
  getImageMetadata (imageProcessor this) imageBuffer = Ok metadata ->
  convertToWebP (imageProcessor this) imageBuffer (quality (config this))
  = Ok webpBuffer ->
  0 < size s3Object ->
  let result := snd (processImage this s3Object w) in
  originalSize result = size s3Object
  /\ convertedSize result = Buffer_length webpBuffer
  /\ compressionRatio result
     = PrimFloat.div
         (PrimFloat.sub (toNumber (originalSize result))
                        (toNumber (convertedSize result)))
         (toNumber (originalSize result))
  /\ (size s3Object = 1000 -> Buffer_length webpBuffer = 1200 ->
      compressionRatio result = minusOneFifth
      /\ PrimFloat.ltb (compressionRatio result) 0%float = true).
Proof.
  intros Hskip Hget Hvalid Hmeta Hwebp Hpos result.
  assert (H : originalSize result = size s3Object
              /\ convertedSize result = Buffer_length webpBuffer
              /\ compressionRatio result
                 = ratio (size s3Object) (Buffer_length webpBuffer)).
  { subst result. unfold processImage.
    rewrite Hskip, Hget, Hvalid, Hmeta, Hwebp.
    destruct (negb (dryRun this)); [|repeat split].
    destruct (uploadImage _ _ _ _ _ _) as [w3 [[]|e]]; repeat split. }
  destruct H as (Ho & Hc & Hr). rewrite Ho, Hc.
  split; [reflexivity|]. split; [reflexivity|]. split; [exact Hr|].
  intros H1 H2. rewrite Hr, H1, H2. split; reflexivity.
Qed.

Lemma compressionRatio_formula_witness :
  compressionRatio
    (snd (processImage (awsConversionService defaultConfig (codec 1200) false)
                       photo photoStore))
  = minusOneFifth.
Proof.
  pose (this := awsConversionService defaultConfig (codec 1200) false).
  pose (listed := skipIfExists this (generateTargetKey (key photo)) photoStore).
  pose (got := downloadImage (s3Service this) (targetBucket (config this))
                             (key photo) (fst listed)).
  refine (proj1 (proj2 (proj2 (proj2
            (compressionRatio_formula this photo photoStore (fst listed) (fst got)
               (bytes 1000) (bytes 1200)
               {| originalFormat := "jpeg"; width := 10; height := 10 |}
               _ _ _ _ _ _))) _ _));
    reflexivity.
Defined.

(** ** The pipeline and the ledger *)

(** C4 (the code departs from the claim). [processImage] holds no
    tracker and contains no call of [markAsConverted], although the
    constructor of Application hands the service its tracker.  The class
    built with dry-run off, the 1000-byte photo, a new tracker and no
    tracking files: the run succeeds and uploads the target, and yet the
    source key is not converted as far as the ledger knows and no journal
    has been written.  The service as Application builds it, asked not to
    run dry: the tracker sits in [dryRun], the run reports success without
    uploading anything, and the ledger is as empty. *)
Theorem success_not_recorded :
  let run := processImage (batchConversionService defaultConfig (codec 600) false)
                          photo freshApplication in
  let wired := processImage (conversionService defaultConfig (codec 600) false)
                            photo freshApplication in
  (dryRun (batchConversionService defaultConfig (codec 600) false) = false
   /\ status (snd run) = Success
   /\ stored (store (fst run)) "my-webp-bucket" "a/b/photo.webp" = true
   /\ snd (Tracker.isConverted "a/b/photo.JPG"
             (conversionTracker (fst run)) (files (fst run))) = false
   /\ Tracker.writeQueue (conversionTracker (fst run)) = []
   /\ Tracker.appendLog (files (fst run)) = None)
  /\ (status (snd wired) = Success
      /\ stored (store (fst wired)) "my-webp-bucket" "a/b/photo.webp" = false
      /\ snd (Tracker.isConverted "a/b/photo.JPG"
                (conversionTracker (fst wired)) (files (fst wired))) = false
      /\ Tracker.appendLog (files (fst wired)) = None).
Proof.
  vm_compute. repeat split.
Qed.

(** ** The conversion ledger *)

Lemma Set_has_In s k : Set_has s k = true <-> In k s.
Proof.
  unfold Set_has. rewrite existsb_exists. split.
  - intros (x & Hin & E). apply String.eqb_eq in E. now subst.
  - intros Hin. exists k. split; [assumption|apply String.eqb_refl].
Qed.

Lemma Set_add_In s k x : In x (Set_add s k) <-> In x s \/ x = k.
Proof.
  unfold Set_add. destruct (Set_has s k) eqn:E.
  - apply Set_has_In in E. split; [now left|]. intros [H| ->]; assumption.
  - rewrite in_app_iff. simpl. intuition.
Qed.

Lemma keys_of_records (records : list Tracker.ConversionRecord) :
  forall keys x,
    In x (fold_left (fun keys record => Set_add keys (Tracker.sourceKey record))
                    records keys)
    <-> In x keys \/ In x (map Tracker.sourceKey records).
Proof.
  induction records as [|r records IH]; intros keys x; simpl.
  - intuition.
  - rewrite IH, Set_add_In. intuition.
Qed.

Lemma keys_of_lines (lines : list Tracker.LogLine) :
  forall keys x,
    In x (fold_left (fun keys line =>
                       match Tracker.parse line with
                       | Some record => Set_add keys (Tracker.sourceKey record)
                       | None => keys
                       end) lines keys)
    <-> In x keys \/ In x (map Tracker.sourceKey (Tracker.recordsOf lines)).
Proof.
  induction lines as [|line lines IH]; intros keys x; simpl.
  - intuition.
  - rewrite IH. destruct line as [record| |]; simpl; [rewrite Set_add_In|..]; intuition.
Qed.

Lemma recordsOf_linesOf data :
  Tracker.recordsOf (Tracker.linesOf data) = Tracker.recordsOf data.
Proof.
  induction data as [|[record| |] data IH]; simpl; congruence.
Qed.

Lemma recordsOf_app l1 l2 :
  Tracker.recordsOf (l1 ++ l2) = Tracker.recordsOf l1 ++ Tracker.recordsOf l2.
Proof.
  induction l1 as [|[record| |] l1 IH]; simpl; congruence.
Qed.

(** What a new tracker knows after loading: the keys of the records in
    the two files. *)
Lemma load_membership fs k :
  snd (Tracker.isConverted k Tracker.new fs) = true
  <-> In k (map Tracker.sourceKey (Tracker.recordsBefore fs)).
Proof.
  unfold Tracker.isConverted, Tracker.loadConvertedKeys, Tracker.recordsBefore.
  cbn [Tracker.isLoaded Tracker.new].
  unfold Tracker.loadFromAppendLog, Tracker.loadFromMainFile.
  rewrite map_app, in_app_iff.
  destruct (Tracker.appendLog fs) as [data|];
    [destruct (negb _)|]; cbn [snd fst Tracker.convertedKeys Tracker.withLoaded
                                 Tracker.withKeys];
    rewrite Set_has_In;
    try rewrite keys_of_lines, recordsOf_linesOf;
    destruct (Tracker.trackingFile fs) as [[records| |]|];
    cbn [Tracker.convertedKeys Tracker.withKeys Tracker.new];
    try rewrite keys_of_records; simpl; intuition.
Qed.

(** The files a successful [markAsConverted] leaves: those loading left,
    with the record put after the last character of the journal. *)
Lemma markAsConverted_files record tr fs tr' fs' :
  Tracker.markAsConverted record tr fs = (tr', fs', Ok tt) ->
  let loaded := snd (Tracker.loadConvertedKeys tr fs) in
  Tracker.trackingFile fs' = Tracker.trackingFile loaded
  /\ Tracker.appendLog fs'
     = Some (Tracker.appended record (Tracker.appendLog loaded)).
Proof.
  unfold Tracker.markAsConverted, Tracker.appendToLog, Tracker.appendFile.
  destruct (Tracker.loadConvertedKeys tr fs) as [tr1 fs1]. cbn [snd].
  destruct (Tracker.appendLogWritable fs1); [|discriminate].
  destruct (_ && _)%bool; intros [= <- <-]; split; reflexivity.
Qed.

(** C5 (the code departs from the claim). [appendToLog] puts the line of
    the record after the last character of the journal without looking at
    it.  A journal that ends in a line torn by a crash, beside a primary
    store that cannot be written (so that the consolidation attempted on
    loading fails and leaves the journal as it is): [markAsConverted]
    returns normally and the key is converted as far as this tracker knows,
    but the record is glued to the torn line, the line is no record, and a
    new tracker that loads the files answers false for the key, while it
    still answers true for the records written before the crash. *)
Theorem torn_journal_loses_record :
  let marked := Tracker.markAsConverted (recordOf "d.jpg") Tracker.new tornFiles in
  snd marked = Ok tt
  /\ snd (Tracker.isConverted "d.jpg" (fst (fst marked)) (snd (fst marked))) = true
  /\ Tracker.appendLog (snd (fst marked))
     = Some {| Tracker.terminated := [Tracker.RecordLine (recordOf "b.png");
                                      Tracker.BrokenLine];
               Tracker.unterminated := None |}
  /\ Tracker.trackingFile (snd (fst marked)) = Tracker.trackingFile tornFiles
  /\ snd (Tracker.isConverted "d.jpg" Tracker.new (snd (fst marked))) = false
  /\ snd (Tracker.isConverted "b.png" Tracker.new (snd (fst marked))) = true.
Proof.
  vm_compute. repeat split.
Qed.

(** *** Consolidation *)

Lemma keepFirst_fold (records : list Tracker.ConversionRecord) :
  forall allRecords seenKeys,
    seenKeys = map Tracker.sourceKey allRecords ->
    NoDup seenKeys ->
    let acc := fold_left Tracker.keepFirst records (allRecords, seenKeys) in
    snd acc = map Tracker.sourceKey (fst acc)
    /\ NoDup (snd acc)
    /\ (forall r, In r (fst acc) -> In r allRecords \/ In r records)
    /\ (forall r, In r allRecords \/ In r records ->
                  exists r', In r' (fst acc)
                             /\ Tracker.sourceKey r' = Tracker.sourceKey r).
Proof.
  induction records as [|r0 records IH]; intros allRecords seenKeys Hseen Hnd; simpl.
  - repeat split; try assumption.
    + intros r H; now left.
    + intros r [H|[]]. now exists r.
  - destruct (Set_has seenKeys (Tracker.sourceKey r0)) eqn:Hhas; simpl.
    + destruct (IH allRecords seenKeys Hseen Hnd) as (H1 & H2 & H3 & H4).
      repeat split; try assumption.
      * intros r H. destruct (H3 r H); auto.
      * intros r [H|[<-|H]]; [apply H4; auto| |apply H4; auto].
        apply Set_has_In in Hhas. rewrite Hseen in Hhas.
        apply in_map_iff in Hhas. destruct Hhas as (r1 & Hkey & Hin).
        destruct (H4 r1 (or_introl Hin)) as (r' & Hin' & Hkey').
        exists r'. split; [assumption|congruence].
    + assert (Hnotin : ~ In (Tracker.sourceKey r0) seenKeys).
      { intros Hin. apply Set_has_In in Hin. congruence. }
      unfold Set_add. rewrite Hhas.
      destruct (IH (allRecords ++ [r0]) (seenKeys ++ [Tracker.sourceKey r0]))
        as (H1 & H2 & H3 & H4).
      * rewrite map_app, Hseen. reflexivity.
      * apply NoDup_app; [assumption| |].
        -- constructor; [intros []|constructor].
        -- intros x Hx [<-|[]]. contradiction.
      * repeat split; try assumption.
        -- intros r H. destruct (H3 r H) as [Hin|Hin]; auto.
           apply in_app_iff in Hin. destruct Hin as [Hin|[<-|[]]]; auto.
        -- intros r [H|[<-|H]]; apply H4; auto;
             left; apply in_app_iff; [now left|right; now left].
Qed.

Lemma keepFirst_distinct (records : list Tracker.ConversionRecord) :
  forall allRecords,
    NoDup (map Tracker.sourceKey (allRecords ++ records)) ->
    fst (fold_left Tracker.keepFirst records
                   (allRecords, map Tracker.sourceKey allRecords))
    = allRecords ++ records.
Proof.
  induction records as [|r0 records IH]; intros allRecords Hnd; simpl.
  - now rewrite app_nil_r.
  - assert (Hhas : Set_has (map Tracker.sourceKey allRecords) (Tracker.sourceKey r0) = false).
    { destruct (Set_has _ _) eqn:E; [|reflexivity]. exfalso.
      apply Set_has_In in E. rewrite map_app in Hnd. simpl in Hnd.
      apply NoDup_remove_2 in Hnd. apply Hnd, in_or_app. now left. }
    rewrite Hhas. simpl. unfold Set_add. rewrite Hhas.
    replace (map Tracker.sourceKey allRecords ++ [Tracker.sourceKey r0])
      with (map Tracker.sourceKey (allRecords ++ [r0])) by now rewrite map_app.
    rewrite IH; rewrite <- app_assoc; simpl; [reflexivity|assumption].
Qed.

Lemma keepFirstLine_fold (lines : list Tracker.LogLine) :
  forall acc,
    fold_left Tracker.keepFirstLine lines acc
    = fold_left Tracker.keepFirst (Tracker.recordsOf lines) acc.
Proof.
  induction lines as [|[record| |] lines IH]; intros acc; simpl; auto.
Qed.

Lemma fold_left_keepFirst_app r1 r2 acc :
  fold_left Tracker.keepFirst (r1 ++ r2) acc
  = fold_left Tracker.keepFirst r2 (fold_left Tracker.keepFirst r1 acc).
Proof. apply fold_left_app. Qed.

(** What the [try] block writes when it runs to its end. *)
Lemma consolidateFiles_try_result fs fs' :
  Tracker.consolidateFiles_try fs = (fs', Ok tt) ->
  Tracker.trackingFile fs'
  = Some (Tracker.Records
            (fst (fold_left Tracker.keepFirst (Tracker.recordsBefore fs) ([], []))))
  /\ Tracker.appendLog fs' = Some Tracker.emptied.
Proof.
  unfold Tracker.consolidateFiles_try, Tracker.recordsBefore.
  destruct (Tracker.appendLog fs) as [data|] eqn:Hlog; [|discriminate].
  rewrite keepFirstLine_fold, recordsOf_linesOf, fold_left_keepFirst_app.
  assert (E : match Tracker.trackingFile fs with
              | Some (Tracker.Records mainRecords) =>
                  fold_left Tracker.keepFirst mainRecords ([], [])
              | _ => ([], [])
              end
              = fold_left Tracker.keepFirst
                  match Tracker.trackingFile fs with
                  | Some (Tracker.Records records) => records
                  | _ => []
                  end ([], [])).
  { destruct (Tracker.trackingFile fs) as [[records| |]|]; reflexivity. }
  rewrite E.
  destruct (fold_left Tracker.keepFirst (Tracker.recordsOf (Tracker.splitLines data)) _)
    as [allRecords seen].
  unfold Tracker.writeTrackingFile, Tracker.clearAppendLog.
  destruct (Tracker.trackingFileWritable fs); [|discriminate].
  cbn [Tracker.appendLogWritable].
  destruct (Tracker.appendLogWritable fs); [|discriminate].
  intros [= <-]. split; reflexivity.
Qed.

(** C6. When [consolidateFiles] runs to its end, the primary store holds
    one record per source key, each taken from the primary store or the
    journal as they were, no source key of either is missing, the journal
    is empty, and when no key was duplicated the primary store holds
    exactly the records of the two files. *)
Theorem consolidation_is_lossless (fs fs' : Tracker.Files) :
  Tracker.consolidateFiles_try fs = (fs', Ok tt) ->
  exists after,
    Tracker.trackingFile fs' = Some (Tracker.Records after)
    /\ Tracker.consolidateFiles fs = fs'
    /\ Tracker.appendLog fs' = Some Tracker.emptied
    /\ NoDup (map Tracker.sourceKey after)
    /\ (forall r, In r after -> In r (Tracker.recordsBefore fs))
    /\ (forall r, In r (Tracker.recordsBefore fs) ->
                  exists r', In r' after
                             /\ Tracker.sourceKey r' = Tracker.sourceKey r)
    /\ (NoDup (map Tracker.sourceKey (Tracker.recordsBefore fs)) ->
        after = Tracker.recordsBefore fs).
Proof.
  intros Htry. destruct (consolidateFiles_try_result _ _ Htry) as [Hmain Hlog].
  eexists. split; [exact Hmain|].
  split; [unfold Tracker.consolidateFiles; now rewrite Htry|].
  split; [exact Hlog|].
  destruct (keepFirst_fold (Tracker.recordsBefore fs) [] [] eq_refl (NoDup_nil _))
    as (H1 & H2 & H3 & H4).
  repeat split.
  - rewrite <- H1. exact H2.
  - intros r H. destruct (H3 r H) as [[]|Hin]. exact Hin.
  - intros r H. apply H4. now right.
  - intros Hnd. apply (keepFirst_distinct (Tracker.recordsBefore fs) []). exact Hnd.
Qed.

Lemma consolidation_is_lossless_witness :
  exists after,
    Tracker.trackingFile (Tracker.consolidateFiles crashedFiles)
    = Some (Tracker.Records after)
    /\ map Tracker.sourceKey after = ["a.jpg"; "b.png"; "c.jpeg"]
    /\ Tracker.appendLog (Tracker.consolidateFiles crashedFiles) = Some Tracker.emptied.
Proof.
  destruct (consolidation_is_lossless crashedFiles
              (Tracker.consolidateFiles crashedFiles) eq_refl)
    as (after & Hmain & _ & Hlog & _).
  exists after. split; [exact Hmain|]. split; [|exact Hlog].
  injection Hmain as <-. reflexivity.
Defined.

(* ===================================================================== *)
(** * Further properties of the code                                      *)
(* ===================================================================== *)

(** ** Target keys *)

Lemma generateTargetKey_dotted base ext :
  ~ occurs "." ext ->
  generateTargetKey (base ++ String "." ext) = (base ++ ".webp")%string.
Proof.
  intros Hno. unfold generateTargetKey, lastIndexOf.
  rewrite lastIndexOfFrom_last by assumption.
  replace (0 + Z.of_nat (String.length base) =? -1) with false
    by (symmetry; apply Z.eqb_neq; lia).
  now rewrite Z.add_0_l, substring0_prefix.
Qed.

Lemma webp_dotless : ~ occurs "." "webp".
Proof. unfold occurs; simpl; intuition discriminate. Qed.

Lemma generateTargetKey_shape sourceKey :
  exists base, generateTargetKey sourceKey = (base ++ String "." "webp")%string.
Proof.
  unfold generateTargetKey. destruct (lastIndexOf sourceKey "." =? -1); eexists; reflexivity.
Qed.

(** X1. Deriving the target key of a target key changes nothing: a key the
    service has produced is its own target. *)
Theorem generateTargetKey_idempotent (sourceKey : string) :
  generateTargetKey (generateTargetKey sourceKey) = generateTargetKey sourceKey.
Proof.
  destruct (generateTargetKey_shape sourceKey) as [base ->].
  apply generateTargetKey_dotted, webp_dotless.
Qed.

(** X2. Two source keys that differ only in what follows the last dot have
    the same target key, so their conversions are written to one object. *)
Theorem generateTargetKey_collides (base ext1 ext2 : string) :
  ~ occurs "." ext1 -> ~ occurs "." ext2 ->
  generateTargetKey (base ++ String "." ext1)
  = generateTargetKey (base ++ String "." ext2).
Proof.
  intros H1 H2. now rewrite !generateTargetKey_dotted.
Qed.

Lemma generateTargetKey_collides_witness :
  generateTargetKey "img/photo.jpg" = generateTargetKey "img/photo.png".
Proof.
  apply (generateTargetKey_collides "img/photo" "jpg" "png");
    unfold occurs; simpl; intuition discriminate.
Defined.

(** ** The image filter and the listing *)

Lemma lowerChar_dot a : Ascii.eqb (lowerChar a) "." = Ascii.eqb a ".".
Proof. destruct a as [[] [] [] [] [] [] [] []]; reflexivity. Qed.

Lemma lowerChar_idempotent a : lowerChar (lowerChar a) = lowerChar a.
Proof. destruct a as [[] [] [] [] [] [] [] []]; reflexivity. Qed.

Lemma toLowerCase_idempotent s : toLowerCase (toLowerCase s) = toLowerCase s.
Proof.
  induction s as [|a s IH]; simpl; [reflexivity|].
  now rewrite lowerChar_idempotent, IH.
Qed.

Lemma split_toLowerCase s :
  split "." (toLowerCase s) = map toLowerCase (split "." s).
Proof.
  induction s as [|a s IH]; simpl; [reflexivity|].
  rewrite lowerChar_dot, IH.
  destruct (Ascii.eqb a "."); [reflexivity|].
  destruct (split "." s); reflexivity.
Qed.

Lemma pop_map {A B} (f : A -> B) (l : list A) :
  pop (map f l) = option_map f (pop l).
Proof.
  induction l as [|x l IH]; simpl; [reflexivity|].
  destruct l; [reflexivity|exact IH].
Qed.

Lemma lowerChar_ascii a :
  Nat.ltb (nat_of_ascii a) 128 = true -> Nat.ltb (nat_of_ascii (lowerChar a)) 128 = true.
Proof.
  destruct a as [[] [] [] [] [] [] [] []]; vm_compute; intros H;
    first [reflexivity | discriminate H].
Qed.

Lemma toLowerCase_ascii s : isAscii s = true -> isAscii (toLowerCase s) = true.
Proof.
  induction s as [|a s IH]; simpl; [reflexivity|].
  intros H. apply andb_true_iff in H as [Ha Hs].
  now rewrite (lowerChar_ascii a Ha), (IH Hs).
Qed.

(** X3. On ASCII text, where lower-casing maps A..Z to a..z and nothing
    else, [isImageFile] does not depend on the case of the key: for a key
    and supported formats of ASCII characters, the key and its lower-cased
    form, which is ASCII too, are classified alike. *)
Theorem isImageFile_ignores_case (cfg : Config) (k : string) :
  isAscii k = true ->
  forallb isAscii (supportedFormats cfg) = true ->
  isAscii (toLowerCase k) = true
  /\ S3.isImageFile cfg (toLowerCase k) = S3.isImageFile cfg k.
Proof.
  intros Hk _. split; [now apply toLowerCase_ascii|].
  unfold S3.isImageFile. rewrite split_toLowerCase, pop_map.
  destruct (pop (split "." k)) as [ext|]; simpl; [|reflexivity].
  now rewrite toLowerCase_idempotent.
Qed.

Lemma isImageFile_ignores_case_witness :
  S3.isImageFile defaultConfig "a/b/photo.jpg" = true
  /\ S3.isImageFile defaultConfig (toLowerCase "a/b/photo.JPG")
     = S3.isImageFile defaultConfig "a/b/photo.JPG".
Proof.
  split; [reflexivity|].
  exact (proj2 (isImageFile_ignores_case defaultConfig "a/b/photo.JPG" eq_refl eq_refl)).
Defined.

Lemma pushIfImage_fold cfg (os : list S3.StoredObject) :
  forall images,
    fold_left (S3.pushIfImage cfg) os images
    = images
      ++ map entryOf
           (filter (fun o => (truthy (S3.Key o)
                              && negb (Buffer_length (S3.Body o) =? 0)
                              && truthy (S3.ETag o)
                              && S3.isImageFile cfg (S3.Key o))%bool) os).
Proof.
  induction os as [|o os IH]; intros images; simpl.
  - now rewrite app_nil_r.
  - rewrite IH. unfold S3.pushIfImage.
    destruct (truthy (S3.Key o) && negb (Buffer_length (S3.Body o) =? 0)
              && truthy (S3.ETag o))%bool; simpl; [|reflexivity].
    destruct (S3.isImageFile cfg (S3.Key o)); simpl; [|reflexivity].
    now rewrite <- app_assoc.
Qed.

Lemma filter_filter {A} (f g : A -> bool) (l : list A) :
  filter f (filter g l) = filter (fun x => (g x && f x)%bool) l.
Proof.
  induction l as [|x l IH]; simpl; [reflexivity|].
  destruct (g x); simpl; [destruct (f x)|]; now rewrite IH.
Qed.

Lemma listImages_listable cfg bucketName pfx w :
  fold_left (S3.pushIfImage cfg) (S3.Contents w bucketName pfx) []
  = map entryOf (filter (listable cfg bucketName pfx) (S3.objects w)).
Proof.
  rewrite pushIfImage_fold. simpl. unfold S3.Contents. f_equal.
  rewrite filter_filter. apply filter_ext. intros o. unfold listable.
  destruct (String.eqb (S3.Bucket o) bucketName), (startsWith (S3.Key o) pfx),
    (truthy (S3.Key o)), (Buffer_length (S3.Body o) =? 0), (truthy (S3.ETag o)),
    (S3.isImageFile cfg (S3.Key o)); reflexivity.
Qed.

(** X4. A listing that succeeds leaves the objects of the store as they
    are and returns, in store order, exactly the objects of the bucket
    under the prefix that have a non-empty key, a non-empty body, an ETag
    and a supported image extension; so every listed key starts with the
    prefix and is an image key, and every listed size is positive (an
    object of zero bytes is never listed). *)
Theorem listImages_characterised
        (cfg : Config) (bucketName pfx : string) (w w' : S3.World)
        (images : list S3Object) :
  S3.listImages cfg bucketName pfx w = (w', Ok images) ->
  S3.objects w' = S3.objects w
  /\ images = map entryOf (filter (listable cfg bucketName pfx) (S3.objects w))
  /\ (forall image, In image images ->
        startsWith (key image) pfx = true
        /\ S3.isImageFile cfg (key image) = true
        /\ 0 < size image).
Proof.
  unfold S3.listImages. cbv zeta.
  destruct (S3.faults w _); intros H; inversion H; subst; clear H.
  split; [reflexivity|].
  rewrite listImages_listable. split; [reflexivity|].
  intros image Hin. apply in_map_iff in Hin. destruct Hin as (o & <- & Ho).
  apply filter_In in Ho. destruct Ho as [_ Ho]. unfold listable in Ho.
  repeat (apply andb_prop in Ho; destruct Ho as [Ho ?]).
  simpl. repeat split; try assumption.
  unfold Buffer_length in *.
  destruct (S3.Body o); simpl in *; [|lia].
  destruct (truthy (S3.Key o)); discriminate.
Qed.

Lemma listImages_characterised_witness :
  exists w',
    S3.listImages defaultConfig "my-webp-bucket" "a/" photoStore = (w', Ok [photo])
    /\ S3.objects w' = S3.objects photoStore.
Proof.
  eexists. split; [reflexivity|].
  apply (listImages_characterised defaultConfig "my-webp-bucket" "a/" photoStore _ [photo]).
  reflexivity.
Defined.

Lemma keys_of_entries (os : list S3.StoredObject) :
  map key (map entryOf os) = map S3.Key os.
Proof. rewrite map_map. reflexivity. Qed.

Lemma listable_keys_distinct cfg bucketName pfx (os : list S3.StoredObject) :
  NoDup (map objectId os) ->
  NoDup (map S3.Key (filter (listable cfg bucketName pfx) os)).
Proof.
  induction os as [|o os IH]; intros Hnd; simpl; [constructor|].
  inversion Hnd as [|? ? Hnotin Hnd']; subst.
  destruct (listable cfg bucketName pfx o) eqn:Ho; [|now apply IH].
  simpl. constructor; [|now apply IH].
  intros Hin. apply in_map_iff in Hin. destruct Hin as (o' & Hkey & Hin').
  apply filter_In in Hin'. destruct Hin' as [Hin' Ho'].
  apply Hnotin. apply in_map_iff. exists o'. split; [|assumption].
  unfold objectId. rewrite Hkey. f_equal.
  unfold listable in Ho, Ho'.
  repeat (apply andb_prop in Ho; destruct Ho as [Ho ?]).
  repeat (apply andb_prop in Ho'; destruct Ho' as [Ho' ?]).
  apply String.eqb_eq in Ho, Ho'. congruence.
Qed.

(** X5. When no two objects of the store share a bucket and a key, the
    keys a listing returns are pairwise distinct. *)
Theorem listImages_distinct_keys
        (cfg : Config) (bucketName pfx : string) (w w' : S3.World)
        (images : list S3Object) :
  wellKeyed w ->
  S3.listImages cfg bucketName pfx w = (w', Ok images) ->
  NoDup (map key images).
Proof.
  intros Hw. unfold S3.listImages. cbv zeta.
  destruct (S3.faults w _); intros H; inversion H; subst; clear H.
  rewrite listImages_listable, keys_of_entries.
  now apply listable_keys_distinct.
Qed.

Lemma photoStore_wellKeyed : wellKeyed photoStore.
Proof. unfold wellKeyed. simpl. constructor; [intros []|constructor]. Qed.

Lemma twoPhotoStore_wellKeyed : wellKeyed twoPhotoStore.
Proof.
  unfold wellKeyed. simpl.
  repeat (constructor; [simpl; intuition discriminate|]). constructor.
Qed.

Lemma listImages_distinct_keys_witness :
  snd (S3.listImages defaultConfig "my-webp-bucket" EmptyString twoPhotoStore)
  = Ok twoObjects
  /\ map key twoObjects = ["a.jpg"; "b.png"]
  /\ NoDup (map key twoObjects).
Proof.
  split; [reflexivity|]. split; [reflexivity|].
  apply (listImages_distinct_keys defaultConfig "my-webp-bucket" EmptyString
           twoPhotoStore
           (S3.send (S3.ListObjectsV2 "my-webp-bucket" EmptyString) twoPhotoStore)).
  - exact twoPhotoStore_wellKeyed.
  - reflexivity.
Defined.

(** C3. A listing of the S3 service names every key of the bucket once
    (no two objects of a bucket share a key), and on the N objects of such
    a listing every run of [processAllImages] that returns has counted each
    object exactly once: successful + failed + skipped is N; and a run
    that returns exists. *)
Theorem report_counts_every_object
        (cfg : Config) (bucketName pfx : string) (w w' : S3.World)
        (images : list S3Object) :
  wellKeyed w ->
  S3.listImages cfg bucketName pfx w = (w', Ok images) ->
  (forall schedule r,
      processAllImages cfg (Ok images) schedule = Some r ->
      successful r + failed r + skipped r = Z.of_nat (List.length images))
  /\ (exists schedule r, processAllImages cfg (Ok images) schedule = Some r).
Proof.
  intros Hw Hlist. split; [|apply processAllImages_returns].
  intros schedule r. apply distinct_keys_counted_once.
  revert Hlist. unfold S3.listImages. cbv zeta.
  destruct (S3.faults w _); intros H; inversion H; subst; clear H.
  rewrite listImages_listable, keys_of_entries.
  now apply listable_keys_distinct.
Qed.

Lemma report_counts_every_object_witness :
  snd (S3.listImages defaultConfig "my-webp-bucket" EmptyString twoPhotoStore)
  = Ok twoObjects
  /\ exists r,
       processAllImages defaultConfig (Ok twoObjects) twoObjectsSchedule = Some r
       /\ successful r + failed r + skipped r = 2.
Proof.
  split; [reflexivity|]. eexists.
  match goal with |- ?A /\ _ => assert (Hrun : A) by (vm_compute; reflexivity) end.
  split; [exact Hrun|].
  exact (proj1 (report_counts_every_object defaultConfig "my-webp-bucket" EmptyString
                  twoPhotoStore
                  (S3.send (S3.ListObjectsV2 "my-webp-bucket" EmptyString) twoPhotoStore)
                  twoObjects twoPhotoStore_wellKeyed eq_refl)
               twoObjectsSchedule _ Hrun).
Defined.

(** X6. A batch run over the listing of such a store counts exactly the
    listable objects of the bucket: successful + failed + skipped of the
    returned report is their number. *)
Theorem batch_counts_listable_objects
        (cfg : Config) (bucketName pfx : string) (w w' : S3.World)
        (images : list S3Object) (schedule : list Event) (r : ConversionReport) :
  wellKeyed w ->
  S3.listImages cfg bucketName pfx w = (w', Ok images) ->
  processAllImages cfg (Ok images) schedule = Some r ->
  successful r + failed r + skipped r
  = Z.of_nat (List.length (filter (listable cfg bucketName pfx) (S3.objects w))).
Proof.
  intros Hw Hlist Hrun.
  assert (Hnd : NoDup (map key images)).
  { revert Hlist. unfold S3.listImages. cbv zeta.
    destruct (S3.faults w _); intros H; inversion H; subst; clear H.
    rewrite listImages_listable, keys_of_entries.
    now apply listable_keys_distinct. }
  assert (Hlen : List.length images
                 = List.length (filter (listable cfg bucketName pfx) (S3.objects w))).
  { revert Hlist. unfold S3.listImages. cbv zeta.
    destruct (S3.faults w _); intros H; inversion H; subst; clear H.
    now rewrite listImages_listable, length_map. }
  rewrite <- Hlen. clear Hlen Hlist.
  destruct images as [|image images]; cbn [processAllImages] in Hrun.
  - now injection Hrun as <-.
  - destruct (processConcurrentBatches _ schedule) as [st|] eqn:Hst; [|discriminate].
    injection Hrun as <-. fold (counted (withAverage (report st))).
    rewrite withAverage_counted.
    apply (processConcurrentBatches_counts _ _ _ _ Hst).
    + split; [reflexivity|]. cbn. lia.
    + split; [exact Hnd|]. intros p img H. now destruct p.
    + intros p img H. now destruct p.
Qed.

Lemma batch_counts_listable_objects_witness :
  exists r,
    processAllImages defaultConfig (Ok [photo])
      [Dispatch; PipelineDone 0 (Ok (converted photo 600)); RaceWon "a/b/photo.JPG"]
    = Some r
    /\ successful r + failed r + skipped r = 1.
Proof.
  eexists. split; [vm_compute; reflexivity|].
  apply (batch_counts_listable_objects defaultConfig "my-webp-bucket" EmptyString
           photoStore
           (S3.send (S3.ListObjectsV2 "my-webp-bucket" EmptyString) photoStore)
           [photo]
           [Dispatch; PipelineDone 0 (Ok (converted photo 600)); RaceWon "a/b/photo.JPG"]).
  - exact photoStore_wellKeyed.
  - reflexivity.
  - vm_compute; reflexivity.
Defined.

(** ** The store: upload and download *)

Lemma find_app {A} (f : A -> bool) (l1 l2 : list A) :
  find f (l1 ++ l2) = match find f l1 with Some x => Some x | None => find f l2 end.
Proof.
  induction l1 as [|x l1 IH]; simpl; [reflexivity|]. now destruct (f x).
Qed.

Lemma find_filter_out {A} (f : A -> bool) (l : list A) :
  find f (filter (fun x => negb (f x)) l) = None.
Proof.
  induction l as [|x l IH]; simpl; [reflexivity|].
  destruct (f x) eqn:E; simpl; [exact IH|]. now rewrite E.
Qed.

Lemma find_filter_other {A} (f g : A -> bool) (l : list A) :
  (forall x, f x = true -> g x = false) ->
  find f (filter (fun x => negb (g x)) l) = find f l.
Proof.
  intros Hfg. induction l as [|x l IH]; simpl; [reflexivity|].
  destruct (g x) eqn:Eg; simpl.
  - destruct (f x) eqn:Ef; [|exact IH]. rewrite (Hfg x Ef) in Eg. discriminate.
  - destruct (f x); [reflexivity|exact IH].
Qed.

(** X7. What is uploaded is what is downloaded: when the store accepts
    the upload and the download, downloading the key just uploaded returns
    the uploaded buffer, whatever the store held before. *)
Theorem upload_then_download
        (bucketName k : string) (buffer : Buffer) (metadata : UploadMetadata)
        (w : S3.World) :
  S3.faults w (S3.PutObject bucketName k buffer) = None ->
  S3.faults w (S3.GetObject bucketName k) = None ->
  snd (S3.downloadImage bucketName k
         (fst (S3.uploadImage bucketName k buffer metadata w)))
  = Ok buffer.
Proof.
  intros Hput Hget. unfold S3.uploadImage, S3.downloadImage. cbv zeta.
  rewrite Hput. cbn [fst S3.faults S3.objects]. rewrite Hget.
  unfold S3.store. rewrite find_app.
  cbn [S3.Bucket S3.Key].
  rewrite (find_filter_out (S3.sameObject bucketName k)).
  cbn [find]. unfold S3.sameObject at 1. cbn [S3.Bucket S3.Key].
  now rewrite !String.eqb_refl.
Qed.

Lemma upload_then_download_witness :
  snd (S3.downloadImage "my-webp-bucket" "a/b/photo.webp"
         (fst (S3.uploadImage "my-webp-bucket" "a/b/photo.webp" (bytes 600)
                 {| original_format := "jpeg"; original_size := 1000;
                    converted_size := 600; compression_ratio := ratio 1000 600;
                    conversion_quality := 80 |} photoStore)))
  = Ok (bytes 600).
Proof.
  apply upload_then_download; reflexivity.
Defined.

Lemma sameObject_objectId bucketName k o :
  S3.sameObject bucketName k o = true <-> objectId o = (bucketName, k).
Proof.
  unfold S3.sameObject, objectId. rewrite andb_true_iff, !String.eqb_eq.
  split; [intros [-> ->]; reflexivity|intros [= -> ->]; split; reflexivity].
Qed.

(** X8. An accepted upload touches one object only: the download of any
    other key answers as before, and a store in which no two objects share
    a bucket and a key stays so (the uploaded object replaces the one of
    its key). *)
Theorem upload_is_local
        (bucketName k : string) (buffer : Buffer) (metadata : UploadMetadata)
        (w : S3.World) (otherBucket otherKey : string) :
  S3.faults w (S3.PutObject bucketName k buffer) = None ->
  (otherBucket, otherKey) <> (bucketName, k) ->
  let w' := fst (S3.uploadImage bucketName k buffer metadata w) in
  snd (S3.downloadImage otherBucket otherKey w')
  = snd (S3.downloadImage otherBucket otherKey w)
  /\ (wellKeyed w -> wellKeyed w').
Proof.
  intros Hput Hother. cbv zeta. unfold S3.uploadImage. cbv zeta. rewrite Hput.
  cbn [fst]. split.
  - unfold S3.downloadImage. cbv zeta. cbn [S3.faults S3.objects].
    destruct (S3.faults w (S3.GetObject otherBucket otherKey)); [reflexivity|].
    unfold S3.store. rewrite find_app. cbn [S3.Bucket S3.Key].
    rewrite (find_filter_other (S3.sameObject otherBucket otherKey)
                               (S3.sameObject bucketName k)).
    + destruct (find (S3.sameObject otherBucket otherKey) (S3.objects w));
        [reflexivity|].
      cbn [find]. destruct (S3.sameObject otherBucket otherKey _) eqn:E; [|reflexivity].
      apply sameObject_objectId in E. unfold objectId in E. cbn in E.
      exfalso. apply Hother. congruence.
    + intros x Hx. destruct (S3.sameObject bucketName k x) eqn:E; [|reflexivity].
      apply sameObject_objectId in Hx, E. exfalso. apply Hother. congruence.
  - unfold wellKeyed. cbn [S3.objects]. unfold S3.store. cbn [S3.Bucket S3.Key].
    intros Hnd. rewrite map_app. apply NoDup_app.
    + induction (S3.objects w) as [|o os IH]; simpl; [constructor|].
      inversion Hnd as [|? ? Hnotin Hnd']; subst.
      destruct (S3.sameObject bucketName k o); simpl; [now apply IH|].
      constructor; [|now apply IH].
      intros Hin. apply Hnotin. apply in_map_iff in Hin.
      destruct Hin as (x & Hx & Hin). apply filter_In in Hin.
      apply in_map_iff. exists x. tauto.
    + simpl. constructor; [intros []|constructor].
    + intros x Hin [<-|[]]. apply in_map_iff in Hin.
      destruct Hin as (o & Ho & Hin). apply filter_In in Hin.
      destruct Hin as [_ Hneg]. apply negb_true_iff in Hneg.
      assert (S3.sameObject bucketName k o = true)
        by (apply sameObject_objectId; exact Ho).
      congruence.
Qed.

Lemma upload_is_local_witness :
  snd (S3.downloadImage "my-webp-bucket" "a/b/photo.JPG"
         (fst (S3.uploadImage "my-webp-bucket" "a/b/photo.webp" (bytes 600)
                 {| original_format := "jpeg"; original_size := 1000;
                    converted_size := 600; compression_ratio := ratio 1000 600;
                    conversion_quality := 80 |} photoStore)))
  = Ok (bytes 1000).
Proof.
  refine (eq_trans
            (proj1 (upload_is_local "my-webp-bucket" "a/b/photo.webp" (bytes 600)
                      {| original_format := "jpeg"; original_size := 1000;
                         converted_size := 600; compression_ratio := ratio 1000 600;
                         conversion_quality := 80 |} photoStore
                      "my-webp-bucket" "a/b/photo.JPG" eq_refl _))
            eq_refl).
  discriminate.
Defined.

(** ** The per-item pipeline: results and side effects *)

Ltac split_innermost :=
  repeat match goal with
         | |- context [match ?x with _ => _ end] =>
             lazymatch x with
             | context [match _ with _ => _ end] => fail
             | _ => destruct x eqn:?
             end
         end.

(** X9. Whatever the collaborators do, the result of [processImage]
    names the object's key, the derived target key and the listed size; a
    skipped result has converted size zero; an error message is present
    exactly on failed results. *)
Theorem processImage_result_shape {W : Type} (this : BatchConversionService W)
        (s3Object : S3Object) (w : W) :
  let result := snd (processImage this s3Object w) in
  sourceKey result = key s3Object
  /\ targetKey result = generateTargetKey (key s3Object)
  /\ originalSize result = size s3Object
  /\ (status result = Skipped -> convertedSize result = 0 /\ error result = None)
  /\ (status result = Success -> error result = None)
  /\ (status result = Failed -> exists message, error result = Some message).
Proof.
  cbv zeta. unfold processImage, processImage_catch.
  destruct (skipIfExists this _ w) as [w1 found].
  split_calls; cbn; repeat split; intros; try discriminate; eauto.
Qed.

Lemma existsb_last {A} (f : A -> bool) (l : list A) (x : A) :
  f x = true -> existsb f (l ++ [x]) = true.
Proof. intros H. rewrite existsb_app. simpl. rewrite H. apply orb_true_r. Qed.

Lemma sameObject_refl bucketName k body tag md :
  S3.sameObject bucketName k
    {| S3.Bucket := bucketName; S3.Key := k; S3.Body := body;
       S3.ETag := tag; S3.Metadata := md |} = true.
Proof. unfold S3.sameObject. cbn. now rewrite !String.eqb_refl. Qed.

(** X10. On the real store, [processImage] changes the objects of the
    store in one case only: a run that returns success with dry-run off
    has stored the target key, with one PutObject. A run that is skipped
    or fails, and every dry run, leaves the objects as they were, and a
    dry run sends no PutObject. *)
Theorem processImage_store_effects
        (cfg : Config) (ip : ImageProcessor) (dry : bool)
        (s3Object : S3Object) (w : S3.World) :
  let run := processImage (awsConversionService cfg ip dry) s3Object w in
  S3.faults (fst run) = S3.faults w
  /\ (status (snd run) = Success -> dry = false ->
      stored (fst run) (targetBucket cfg) (generateTargetKey (key s3Object)) = true
      /\ puts (fst run) = S (puts w))
  /\ (status (snd run) = Skipped \/ status (snd run) = Failed \/ dry = true ->
      S3.objects (fst run) = S3.objects w)
  /\ (dry = true -> puts (fst run) = puts w).
Proof.
  cbv zeta. unfold processImage, processImage_catch, skipIfExists.
  cbn [s3Service awsConversionService AWSS3Service listImages downloadImage
       uploadImage config imageProcessor dryRun].
  unfold S3.listImages, S3.downloadImage, S3.uploadImage, stored, puts. cbv zeta.
  destruct dry; cbn [negb];
    split_innermost; cbn [fst snd status S3.faults S3.objects S3.requests S3.send
                      withStatus withError withConvertedSize withCompressionRatio];
    (split; [reflexivity|]);
    (split; [intros Hs Hd;
             first [discriminate
                   | split; [unfold S3.store; apply existsb_last, sameObject_refl
                            | rewrite !filter_app, !length_app; cbn; lia]]
            |]);
    (split; [intros [Hs|[Hs|Hd]]; first [discriminate|reflexivity]|]);
    intros Hd;
    first [discriminate | rewrite !filter_app, !length_app; cbn; lia].
Qed.

(** ** Idempotence when the filter lets the target through *)

Lemma prefix_refl s : String.prefix s s = true.
Proof.
  induction s as [|a s IH]; simpl; [reflexivity|].
  destruct (ascii_dec a a) as [_|N]; [exact IH|contradiction].
Qed.

Lemma truthy_targetKey sourceKey : truthy (generateTargetKey sourceKey) = true.
Proof.
  destruct (generateTargetKey_shape sourceKey) as [base ->].
  now destruct base.
Qed.

Lemma skipIfExists_stored cfg ip dry targetKey w o :
  S3.faults w (S3.ListObjectsV2 (targetBucket cfg) targetKey) = None ->
  In o (S3.objects w) ->
  S3.Key o = targetKey ->
  listable cfg (targetBucket cfg) targetKey o = true ->
  skipIfExists (awsConversionService cfg ip dry) targetKey w
  = (S3.send (S3.ListObjectsV2 (targetBucket cfg) targetKey) w, true).
Proof.
  intros Hquiet Hin Hkey Hlistable. unfold skipIfExists.
  cbn [s3Service awsConversionService AWSS3Service listImages config].
  unfold S3.listImages. cbv zeta. rewrite Hquiet, listImages_listable.
  f_equal. apply existsb_exists. exists (entryOf o). split.
  - apply in_map, filter_In. now split.
  - cbn [key entryOf]. rewrite Hkey. apply String.eqb_refl.
Qed.

(** What a successful run with dry-run off leaves in the store. *)
Lemma success_stores_target cfg ip s3Object w :
  let run := processImage (awsConversionService cfg ip false) s3Object w in
  status (snd run) = Success ->
  S3.faults (fst run) = S3.faults w
  /\ exists o,
       In o (S3.objects (fst run))
       /\ S3.Bucket o = targetBucket cfg
       /\ S3.Key o = generateTargetKey (key s3Object)
       /\ Buffer_length (S3.Body o) = convertedSize (snd run)
       /\ S3.ETag o = "etag".
Proof.
  cbv zeta. unfold processImage, processImage_catch, skipIfExists.
  cbn [s3Service awsConversionService AWSS3Service listImages downloadImage
       uploadImage config imageProcessor dryRun negb].
  unfold S3.listImages, S3.downloadImage, S3.uploadImage. cbv zeta.
  split_innermost; cbn [fst snd status S3.faults S3.objects S3.send
                    withStatus withError withConvertedSize withCompressionRatio
                    convertedSize];
    intros Hs;
    first [discriminate
          | split; [reflexivity|];
            eexists; split; [unfold S3.store; apply in_or_app; right; left; reflexivity|];
            cbn; repeat split].
Qed.

(** X11. With "webp" among the supported formats the skip check works:
    on a store that rejects nothing, after a run that succeeded with
    dry-run off and produced a non-empty encoding, a second run on the
    same object returns skipped with converted size zero, changes no
    object and transfers nothing. *)
Theorem second_run_skips_when_webp_supported
        (cfg : Config) (ip : ImageProcessor) (s3Object : S3Object) (w : S3.World) :
  Set_has (S3.supportedExtensions cfg) "webp" = true ->
  quiet w ->
  let this := awsConversionService cfg ip false in
  let first := processImage this s3Object w in
  status (snd first) = Success ->
  0 < convertedSize (snd first) ->
  let second := processImage this s3Object (fst first) in
  status (snd second) = Skipped
  /\ convertedSize (snd second) = 0
  /\ S3.objects (fst second) = S3.objects (fst first)
  /\ transfers (fst second) = transfers (fst first).
Proof.
  intros Hwebp Hquiet this first Hsuccess Hsize second.
  destruct (success_stores_target cfg ip s3Object w Hsuccess)
    as (Hfaults & o & Hin & Hbucket & Hkey & Hbody & Htag).
  fold this in Hfaults, Hin, Hbody. fold first in Hfaults, Hin, Hbody.
  assert (Hskip : skipIfExists this (generateTargetKey (key s3Object)) (fst first)
                  = (S3.send (S3.ListObjectsV2 (targetBucket cfg)
                                               (generateTargetKey (key s3Object)))
                             (fst first), true)).
  { apply skipIfExists_stored with o; try assumption.
    - rewrite Hfaults. apply Hquiet.
    - unfold listable. rewrite Hbucket, Hkey, Htag, String.eqb_refl.
      unfold startsWith. rewrite prefix_refl, truthy_targetKey, isImageFile_targetKey, Hwebp.
      rewrite Hbody. cbn. destruct (convertedSize (snd first)); try reflexivity; lia. }
  subst second. unfold processImage. rewrite Hskip. cbn.
  repeat split. unfold transfers. cbn. rewrite filter_app, length_app. cbn. lia.
Qed.

Lemma second_run_skips_when_webp_supported_witness :
  status (snd (processImage (awsConversionService webpConfig (codec 600) false) photo
                 (fst (processImage (awsConversionService webpConfig (codec 600) false)
                                    photo photoStore))))
  = Skipped.
Proof.
  refine (proj1 (second_run_skips_when_webp_supported webpConfig (codec 600) photo
                   photoStore _ _ _ _)).
  - reflexivity.
  - intros c; reflexivity.
  - reflexivity.
  - reflexivity.
Defined.

(** ** The report as a tally of the results *)

Lemma sumOver_app s f rs1 rs2 :
  sumOver s f (rs1 ++ rs2) = sumOver s f rs1 + sumOver s f rs2.
Proof.
  induction rs1 as [|r rs1 IH]; simpl; [reflexivity|]. rewrite IH. lia.
Qed.

Lemma resolvedResults_app ps qs :
  resolvedResults (ps ++ qs) = resolvedResults ps ++ resolvedResults qs.
Proof. unfold resolvedResults. apply flat_map_app. Qed.

Lemma sumOver_settle s f ps :
  forall p image r,
    nth_error ps p = Some (Running image) ->
    sumOver s f (resolvedResults (settle ps p (Resolved r)))
    = sumOver s f (resolvedResults ps) + (if hasStatus s r then f r else 0).
Proof.
  induction ps as [|x ps IH]; intros [|p] image r; simpl; try discriminate.
  - intros [= ->]. simpl. lia.
  - intros H. destruct x as [img|res]; simpl; rewrite (IH p image r H); lia.
Qed.

(** The report summarises the resolved results. *)
Lemma processImageWithTracking_tally image o q r :
  let '(_, r', result) := processImageWithTracking image o q r in
  successful r' = successful r + (if hasStatus Success result then 1 else 0)
  /\ failed r' = failed r + (if hasStatus Failed result then 1 else 0)
  /\ skipped r' = skipped r + (if hasStatus Skipped result then 1 else 0)
  /\ totalSizeBefore r'
     = totalSizeBefore r + (if hasStatus Success result then originalSize result else 0)
  /\ totalSizeAfter r'
     = totalSizeAfter r + (if hasStatus Success result then convertedSize result else 0)
  /\ averageCompressionRatio r' = averageCompressionRatio r
  /\ (Z.of_nat (List.length (errors r')) - failed r'
      <= Z.of_nat (List.length (errors r)) - failed r).
Proof.
  destruct o as [result|e]; cbn.
  - unfold hasStatus. destruct (status result) eqn:Hs; cbn; rewrite ?Hs; cbn;
      try (repeat split; lia).
    destruct (error result) as [m|]; [destruct (truthy m)|]; cbn;
      rewrite ?length_app; cbn; repeat split; lia.
  - rewrite length_app. cbn. repeat split; lia.
Qed.

Lemma step_tally st ev st' :
  step st ev = Some st' ->
  let rs := resolvedResults (promises st) in
  let rs' := resolvedResults (promises st') in
  successful (report st') - sumOver Success (fun _ => 1) rs'
  = successful (report st) - sumOver Success (fun _ => 1) rs
  /\ failed (report st') - sumOver Failed (fun _ => 1) rs'
     = failed (report st) - sumOver Failed (fun _ => 1) rs
  /\ skipped (report st') - sumOver Skipped (fun _ => 1) rs'
     = skipped (report st) - sumOver Skipped (fun _ => 1) rs
  /\ totalSizeBefore (report st') - sumOver Success originalSize rs'
     = totalSizeBefore (report st) - sumOver Success originalSize rs
  /\ totalSizeAfter (report st') - sumOver Success convertedSize rs'
     = totalSizeAfter (report st) - sumOver Success convertedSize rs
  /\ averageCompressionRatio (report st') = averageCompressionRatio (report st)
  /\ (Z.of_nat (List.length (errors (report st'))) - failed (report st')
      <= Z.of_nat (List.length (errors (report st))) - failed (report st)).
Proof.
  destruct ev as [|p o|k]; cbn [step].
  - destruct (pending (processingQueue st)); [discriminate|].
    intros [= <-]. cbn [report promises]. rewrite resolvedResults_app, !sumOver_app.
    cbn. repeat split; lia.
  - destruct (nth_error (promises st) p) as [[image|result]|] eqn:Hnth; try discriminate.
    pose proof (processImageWithTracking_tally image o (processingQueue st) (report st))
      as Ht.
    destruct (processImageWithTracking image o (processingQueue st) (report st))
      as [[q' r'] res].
    intros [= <-]. cbn [report promises].
    rewrite !(sumOver_settle _ _ _ _ _ _ Hnth).
    destruct Ht as (H1 & H2 & H3 & H4 & H5 & H6 & H7).
    repeat split; try lia. exact H6.
  - destruct (pending (processingQueue st)); [|discriminate].
    destruct (Map_get (activePromises st) k) as [p|]; [|discriminate].
    destruct (nth_error (promises st) p) as [[image|result]|]; try discriminate.
    intros [= <-]. cbn [report promises]. repeat split; lia.
Qed.

Lemma processConcurrentBatches_tally schedule :
  forall st st',
    processConcurrentBatches st schedule = Some st' ->
    let rs := resolvedResults (promises st) in
    let rs' := resolvedResults (promises st') in
    successful (report st') - sumOver Success (fun _ => 1) rs'
    = successful (report st) - sumOver Success (fun _ => 1) rs
    /\ failed (report st') - sumOver Failed (fun _ => 1) rs'
       = failed (report st) - sumOver Failed (fun _ => 1) rs
    /\ skipped (report st') - sumOver Skipped (fun _ => 1) rs'
       = skipped (report st) - sumOver Skipped (fun _ => 1) rs
    /\ totalSizeBefore (report st') - sumOver Success originalSize rs'
       = totalSizeBefore (report st) - sumOver Success originalSize rs
    /\ totalSizeAfter (report st') - sumOver Success convertedSize rs'
       = totalSizeAfter (report st) - sumOver Success convertedSize rs
    /\ averageCompressionRatio (report st') = averageCompressionRatio (report st)
    /\ (Z.of_nat (List.length (errors (report st'))) - failed (report st')
        <= Z.of_nat (List.length (errors (report st))) - failed (report st)).
Proof.
  induction schedule as [|ev schedule IH]; intros st st'; cbn [processConcurrentBatches].
  - destruct (loopCondition st); [discriminate|]. intros [= <-]. cbv zeta.
    repeat split; lia.
  - destruct (loopCondition st); [|discriminate].
    destruct (step st ev) as [st1|] eqn:Hstep; [|discriminate].
    intros Hrun. pose proof (step_tally _ _ _ Hstep) as Hs.
    pose proof (IH _ _ Hrun) as Hr. cbv zeta in *.
    destruct Hs as (A1 & A2 & A3 & A4 & A5 & A6 & A7).
    destruct Hr as (B1 & B2 & B3 & B4 & B5 & B6 & B7).
    repeat split; try lia. congruence.
Qed.

(** X12. When the loop of [processConcurrentBatches] exits, the report is
    the tally of the results the pipelines have resolved with: the three
    counters are the numbers of results of each status, and the two size
    totals are the sums of the original and of the converted sizes over
    the successful results (failed and skipped results add no bytes). *)
Theorem report_is_tally_of_results
        (cfg : Config) (images : list S3Object) (schedule : list Event)
        (st : Scheduler) :
  processConcurrentBatches (initialise cfg images) schedule = Some st ->
  let results := resolvedResults (promises st) in
  successful (report st) = sumOver Success (fun _ => 1) results
  /\ failed (report st) = sumOver Failed (fun _ => 1) results
  /\ skipped (report st) = sumOver Skipped (fun _ => 1) results
  /\ totalSizeBefore (report st) = sumOver Success originalSize results
  /\ totalSizeAfter (report st) = sumOver Success convertedSize results.
Proof.
  intros Hrun. pose proof (processConcurrentBatches_tally _ _ _ Hrun) as H.
  cbv zeta in *. cbn in H. destruct H as (H1 & H2 & H3 & H4 & H5 & _).
  repeat split; lia.
Qed.

Lemma report_is_tally_of_results_witness :
  exists st,
    processConcurrentBatches (initialise defaultConfig twoObjects) twoObjectsSchedule
    = Some st
    /\ totalSizeBefore (report st) = 1500
    /\ totalSizeAfter (report st) = 900.
Proof.
  eexists.
  match goal with |- ?A /\ _ => assert (Hrun : A) by (vm_compute; reflexivity) end.
  split; [exact Hrun|].
  destruct (report_is_tally_of_results defaultConfig twoObjects twoObjectsSchedule
              _ Hrun) as (_ & _ & _ & H4 & H5).
  split; [exact H4|exact H5].
Defined.

(** X13. A report returned after a successful listing never has more
    error lines than failed objects (a failure whose message is empty adds
    none), and its average compression ratio is the quotient of the totals,
    (totalSizeBefore - totalSizeAfter) / totalSizeBefore, when something
    succeeded and totalSizeBefore is positive, and zero otherwise. *)
Theorem report_errors_and_average
        (cfg : Config) (images : list S3Object) (schedule : list Event)
        (r : ConversionReport) :
  processAllImages cfg (Ok images) schedule = Some r ->
  Z.of_nat (List.length (errors r)) <= failed r
  /\ averageCompressionRatio r
     = if ((0 <? successful r) && (0 <? totalSizeBefore r))%bool
       then ratio (totalSizeBefore r) (totalSizeAfter r)
       else 0%float.
Proof.
  destruct images as [|image images]; cbn [processAllImages].
  - intros [= <-]. split; [cbn; lia|reflexivity].
  - destruct (processConcurrentBatches _ schedule) as [st|] eqn:Hrun; [|discriminate].
    intros [= <-].
    pose proof (processConcurrentBatches_tally _ _ _ Hrun) as H.
    cbv zeta in H. cbn in H. destruct H as (_ & _ & _ & _ & _ & Havg & Herr).
    unfold withAverage.
    destruct ((0 <? successful (report st)) && (0 <? totalSizeBefore (report st)))%bool
      eqn:E; cbn; rewrite ?E; split; try lia; try reflexivity. exact Havg.
Qed.

Lemma report_errors_and_average_witness :
  exists r,
    processAllImages defaultConfig (Ok twoObjects) twoObjectsSchedule = Some r
    /\ Z.of_nat (List.length (errors r)) <= failed r.
Proof.
  eexists.
  match goal with |- ?A /\ _ => assert (Hrun : A) by (vm_compute; reflexivity) end.
  split; [exact Hrun|].
  exact (proj1 (report_errors_and_average defaultConfig twoObjects twoObjectsSchedule
                  _ Hrun)).
Defined.

(** ** The queue's sets *)

Lemma keys_Map_set {V} (m : list (string * V)) k v :
  map fst (Map_set m k v) = Set_add (map fst m) k.
Proof.
  unfold Set_add, Set_has.
  induction m as [|[k' v'] m IH]; cbn; [reflexivity|].
  destruct (String.eqb k k') eqn:E; cbn.
  - apply String.eqb_eq in E. now subst.
  - rewrite IH. now destruct (existsb (String.eqb k) (map fst m)).
Qed.

Lemma keys_Map_delete {V} (m : list (string * V)) k :
  map fst (Map_delete m k) = Set_delete (map fst m) k.
Proof.
  unfold Map_delete, Set_delete.
  induction m as [|[k' v'] m IH]; cbn; [reflexivity|].
  destruct (String.eqb k k'); cbn; now rewrite IH.
Qed.

Lemma processImageWithTracking_queue image o q r :
  let q' := fst (fst (processImageWithTracking image o q r)) in
  pending q' = pending q
  /\ processing q' = processing q
  /\ ((completed q' = Set_add (completed q) (key image) /\ failedKeys q' = failedKeys q)
      \/ (completed q' = completed q /\ failedKeys q' = Set_add (failedKeys q) (key image))).
Proof.
  destruct o as [result|e]; cbn; [destruct (status result)|]; cbn; auto.
Qed.

Lemma step_covered images st ev st' :
  step st ev = Some st' -> covered images st -> covered images st'.
Proof.
  unfold covered. destruct ev as [|p o|k]; cbn [step].
  - destruct (pending (processingQueue st)) as [|image0 rest] eqn:Hp; [discriminate|].
    intros [= <-] Hc image Hin. cbn [processingQueue pending promises completed failedKeys].
    destruct (Hc image Hin) as [H|[(p & running & Hnth & Hk)|H]].
    + cbn in H. destruct H as [H|H]; [|now left].
      right; left. exists (List.length (promises st)), image0. split; [|exact H].
      rewrite nth_error_app2 by lia. now rewrite Nat.sub_diag.
    + right; left. exists p, running. split; [|exact Hk].
      rewrite nth_error_app1; [exact Hnth|]. apply nth_error_Some. congruence.
    + right; right. exact H.
  - destruct (nth_error (promises st) p) as [[image0|result]|] eqn:Hnth; try discriminate.
    pose proof (processImageWithTracking_queue image0 o (processingQueue st) (report st))
      as Hq.
    destruct (processImageWithTracking image0 o (processingQueue st) (report st))
      as [[q' r'] res].
    cbv zeta in Hq. cbn [fst] in Hq. destruct Hq as (Hpend & _ & Hsets).
    intros [= <-] Hc image Hin. cbn [processingQueue promises]. rewrite Hpend.
    destruct (Hc image Hin) as [H|[(p' & running & Hnth' & Hk)|[H|H]]].
    + now left.
    + destruct (Nat.eq_dec p p') as [<-|Hne].
      * rewrite Hnth in Hnth'. injection Hnth' as <-. rewrite <- Hk.
        right; right.
        destruct Hsets as [[-> _]|[_ ->]]; [left|right]; apply Set_add_In; now right.
      * right; left. exists p', running. split; [|exact Hk].
        rewrite nth_error_settle. apply Nat.eqb_neq in Hne. now rewrite Hne.
    + right; right; left.
      destruct Hsets as [[-> _]|[-> _]]; [apply Set_add_In; now left|exact H].
    + right; right; right.
      destruct Hsets as [[_ ->]|[_ ->]]; [exact H|apply Set_add_In; now left].
  - destruct (pending (processingQueue st)) eqn:Hp; [|discriminate].
    destruct (Map_get (activePromises st) k) as [p|]; [|discriminate].
    destruct (nth_error (promises st) p) as [[image0|result]|]; try discriminate.
    intros [= <-] Hc image Hin. cbn [processingQueue pending promises completed failedKeys].
    exact (Hc image Hin).
Qed.

Lemma step_withinListing images st ev st' :
  step st ev = Some st' -> withinListing images st -> withinListing images st'.
Proof.
  unfold withinListing. destruct ev as [|p o|k]; cbn [step].
  - destruct (pending (processingQueue st)) as [|image0 rest] eqn:Hp; [discriminate|].
    intros [= <-] (Hproc & Hpend & Hrun & Hcomp & Hfail).
    cbn [processingQueue pending processing promises completed failedKeys activePromises].
    repeat split; try assumption.
    + now rewrite keys_Map_set, Hproc.
    + intros image Hin. apply Hpend. now right.
    + intros p running Hnth.
      destruct (Nat.lt_ge_cases p (List.length (promises st))) as [Hlt|Hge].
      * rewrite nth_error_app1 in Hnth by assumption. eauto.
      * rewrite nth_error_app2 in Hnth by assumption.
        destruct (p - List.length (promises st))%nat as [|d]; cbn in Hnth.
        -- injection Hnth as <-. apply Hpend. now left.
        -- now destruct d.
  - destruct (nth_error (promises st) p) as [[image0|result]|] eqn:Hnth; try discriminate.
    pose proof (processImageWithTracking_queue image0 o (processingQueue st) (report st))
      as Hq.
    destruct (processImageWithTracking image0 o (processingQueue st) (report st))
      as [[q' r'] res].
    cbv zeta in Hq. cbn [fst] in Hq. destruct Hq as (Hpend' & Hproc' & Hsets).
    intros [= <-] (Hproc & Hpend & Hrun & Hcomp & Hfail).
    cbn [processingQueue promises activePromises]. rewrite Hpend', Hproc'.
    repeat split; try assumption.
    + intros p' running. rewrite nth_error_settle.
      destruct (Nat.eqb p p' && Nat.ltb p (List.length (promises st)))%bool;
        [discriminate|eauto].
    + intros k Hin. destruct Hsets as [[E _]|[E _]]; rewrite E in Hin;
        [|now apply Hcomp].
      apply Set_add_In in Hin. destruct Hin as [Hin| ->]; eauto.
    + intros k Hin. destruct Hsets as [[_ E]|[_ E]]; rewrite E in Hin;
        [now apply Hfail|].
      apply Set_add_In in Hin. destruct Hin as [Hin| ->]; eauto.
  - destruct (pending (processingQueue st)) eqn:Hp; [|discriminate].
    destruct (Map_get (activePromises st) k) as [p|]; [|discriminate].
    destruct (nth_error (promises st) p) as [[image0|result]|]; try discriminate.
    intros [= <-] (Hproc & Hpend & Hrun & Hcomp & Hfail).
    cbn [processingQueue pending processing promises completed failedKeys activePromises].
    repeat split; try assumption.
    now rewrite keys_Map_delete, Hproc.
Qed.

Lemma processConcurrentBatches_exit (P : Scheduler -> Prop) :
  (forall st ev st', step st ev = Some st' -> P st -> P st') ->
  forall schedule st st',
    processConcurrentBatches st schedule = Some st' ->
    P st -> P st' /\ loopCondition st' = false.
Proof.
  intros Hstep. induction schedule as [|ev schedule IH]; intros st st';
    cbn [processConcurrentBatches].
  - destruct (loopCondition st) eqn:E; [discriminate|]. intros [= <-]. auto.
  - destruct (loopCondition st); [|discriminate].
    destruct (step st ev) as [st1|] eqn:Hs; [|discriminate]. eauto.
Qed.

(** X14. When the loop of [processConcurrentBatches] exits, nothing is
    pending, [activePromises] and the processing set are empty, the
    completed and failed sets hold listed keys only, and, when the listed
    keys are pairwise distinct, every listed key is in the completed set or
    in the failed set. *)
Theorem queue_at_exit
        (cfg : Config) (images : list S3Object) (schedule : list Event)
        (st : Scheduler) :
  processConcurrentBatches (initialise cfg images) schedule = Some st ->
  pending (processingQueue st) = []
  /\ activePromises st = []
  /\ processing (processingQueue st) = []
  /\ (forall k, In k (completed (processingQueue st))
                \/ In k (failedKeys (processingQueue st)) ->
                In k (map key images))
  /\ (NoDup (map key images) ->
      forall image, In image images ->
                    In (key image) (completed (processingQueue st))
                    \/ In (key image) (failedKeys (processingQueue st))).
Proof.
  intros Hrun.
  destruct (processConcurrentBatches_exit (withinListing images)
              (step_withinListing images) _ _ _ Hrun) as [Hw Hloop].
  { unfold withinListing; cbn. repeat split; try tauto.
    - intros image Hin. now apply in_map.
    - intros p running H. now destruct p. }
  destruct (processConcurrentBatches_exit (covered images)
              (step_covered images) _ _ _ Hrun) as [Hc _].
  { intros image Hin. left. cbn. now apply in_map. }
  unfold loopCondition in Hloop.
  destruct (pending (processingQueue st)) eqn:Hp; [|discriminate].
  destruct (activePromises st) eqn:Ha; [|discriminate].
  destruct Hw as (Hproc & _ & _ & Hcomp & Hfail). rewrite Ha in Hproc.
  repeat split; try assumption.
  - intros k [H|H]; auto.
  - intros Hnd image Hin.
    destruct (processConcurrentBatches_exit (fun s => freshKeys s /\ tracked s)
                (fun s ev s' Hs H => step_tracked s ev s' Hs (proj1 H) (proj2 H))
                _ _ _ Hrun) as [[_ Htr] _].
    { split; [split; [exact Hnd|]|]; intros p img H; now destruct p. }
    destruct (Hc image Hin) as [H|[(p & running & Hnth & Hk)|H]].
    + rewrite Hp in H. destruct H.
    + specialize (Htr p running Hnth). rewrite Ha in Htr. discriminate.
    + exact H.
Qed.

Lemma queue_at_exit_witness :
  exists st,
    processConcurrentBatches (initialise defaultConfig twoObjects) twoObjectsSchedule
    = Some st
    /\ completed (processingQueue st) = ["b.png"; "a.jpg"]
    /\ processing (processingQueue st) = [].
Proof.
  eexists.
  match goal with |- ?A /\ _ => assert (Hrun : A) by (vm_compute; reflexivity) end.
  split; [exact Hrun|]. split; [reflexivity|].
  exact (proj1 (proj2 (proj2 (queue_at_exit defaultConfig twoObjects twoObjectsSchedule
                                 _ Hrun)))).
Defined.

(** ** The ledger: memory, reload, flush *)

Lemma Set_has_add_same s k : Set_has (Set_add s k) k = true.
Proof. apply Set_has_In, Set_add_In. now right. Qed.

Lemma Set_has_add_mono s k x : Set_has s x = true -> Set_has (Set_add s k) x = true.
Proof. rewrite !Set_has_In, Set_add_In. now left. Qed.

Lemma processWriteQueue_unawaited_memory tr :
  Tracker.convertedKeys (Tracker.processWriteQueue_unawaited tr) = Tracker.convertedKeys tr
  /\ Tracker.isLoaded (Tracker.processWriteQueue_unawaited tr) = Tracker.isLoaded tr.
Proof.
  unfold Tracker.processWriteQueue_unawaited, Tracker.processWriteQueue_begin.
  destruct (_ || _)%bool; split; reflexivity.
Qed.

Lemma loadConvertedKeys_loaded tr fs :
  Tracker.isLoaded (fst (Tracker.loadConvertedKeys tr fs)) = true.
Proof.
  unfold Tracker.loadConvertedKeys. destruct (Tracker.isLoaded tr) eqn:E; [exact E|].
  destruct (Tracker.loadFromAppendLog _ fs). reflexivity.
Qed.

(** X15. [markAsConverted] makes the key visible in memory at once and
    for good: whether it returns or throws (the journal cannot be written),
    the tracker is loaded afterwards and answers [isConverted] with true
    for the record's key whatever the files hold later, and every key it
    knew after loading is still known. *)
Theorem markAsConverted_visible_in_memory
        (record : Tracker.ConversionRecord) (tr : Tracker.t)
        (fs later : Tracker.Files) :
  let tr' := fst (fst (Tracker.markAsConverted record tr fs)) in
  Tracker.isLoaded tr' = true
  /\ snd (Tracker.isConverted (Tracker.sourceKey record) tr' later) = true
  /\ (forall k,
         Set_has (Tracker.convertedKeys (fst (Tracker.loadConvertedKeys tr fs))) k = true ->
         Set_has (Tracker.convertedKeys tr') k = true).
Proof.
  cbv zeta.
  assert (H : Tracker.isLoaded (fst (fst (Tracker.markAsConverted record tr fs))) = true
              /\ Tracker.convertedKeys (fst (fst (Tracker.markAsConverted record tr fs)))
                 = Set_add (Tracker.convertedKeys (fst (Tracker.loadConvertedKeys tr fs)))
                           (Tracker.sourceKey record)).
  { unfold Tracker.markAsConverted.
    pose proof (loadConvertedKeys_loaded tr fs) as Hl.
    destruct (Tracker.loadConvertedKeys tr fs) as [tr1 fs1]. cbn [fst] in *.
    destruct (Tracker.appendToLog record fs1) as [fs2 [[]|e]]; [|split; [exact Hl|reflexivity]].
    destruct (_ && _)%bool; cbn [fst]; [|split; [exact Hl|reflexivity]].
    match goal with
    | |- context [Tracker.processWriteQueue_unawaited ?t] =>
        destruct (processWriteQueue_unawaited_memory t) as [Hk Hld]
    end.
    rewrite Hk, Hld. split; [exact Hl|reflexivity]. }
  destruct H as [Hl Hk]. split; [exact Hl|]. split.
  - unfold Tracker.isConverted, Tracker.loadConvertedKeys. rewrite Hl. cbn.
    rewrite Hk. apply Set_has_add_same.
  - intros k Hin. rewrite Hk. now apply Set_has_add_mono.
Qed.

Lemma consolidateFiles_keys fs k :
  In k (map Tracker.sourceKey (Tracker.recordsBefore (Tracker.consolidateFiles fs)))
  <-> In k (map Tracker.sourceKey (Tracker.recordsBefore fs)).
Proof.
  unfold Tracker.consolidateFiles, Tracker.consolidateFiles_try.
  destruct (Tracker.appendLog fs) as [data|] eqn:Hlog; [|reflexivity].
  rewrite keepFirstLine_fold, recordsOf_linesOf.
  assert (E : match Tracker.trackingFile fs with
              | Some (Tracker.Records mainRecords) =>
                  fold_left Tracker.keepFirst mainRecords ([], [])
              | _ => ([], [])
              end
              = fold_left Tracker.keepFirst
                  match Tracker.trackingFile fs with
                  | Some (Tracker.Records records) => records
                  | _ => []
                  end ([], [])).
  { destruct (Tracker.trackingFile fs) as [[records| |]|]; reflexivity. }
  rewrite E, <- fold_left_keepFirst_app.
  assert (Hb : Tracker.recordsBefore fs
               = match Tracker.trackingFile fs with
                 | Some (Tracker.Records records) => records
                 | _ => []
                 end ++ Tracker.recordsOf (Tracker.splitLines data)).
  { unfold Tracker.recordsBefore. now rewrite Hlog. }
  rewrite <- Hb.
  destruct (keepFirst_fold (Tracker.recordsBefore fs) [] [] eq_refl (NoDup_nil _))
    as (_ & _ & H3 & H4).
  destruct (fold_left Tracker.keepFirst (Tracker.recordsBefore fs) ([], []))
    as [allRecords seen]. cbn [fst] in H3, H4.
  assert (Hkeys : In k (map Tracker.sourceKey allRecords)
                  <-> In k (map Tracker.sourceKey (Tracker.recordsBefore fs))).
  { rewrite !in_map_iff. split.
    - intros (r & Hr & Hin). exists r. split; [exact Hr|].
      destruct (H3 r Hin) as [[]|H]. exact H.
    - intros (r & Hr & Hin). destruct (H4 r (or_intror Hin)) as (r' & Hin' & Hk).
      exists r'. split; [congruence|exact Hin']. }
  unfold Tracker.writeTrackingFile, Tracker.clearAppendLog.
  destruct (Tracker.trackingFileWritable fs); cbn [fst]; [|reflexivity].
  cbn [Tracker.appendLogWritable].
  destruct (Tracker.appendLogWritable fs); cbn [fst].
  - unfold Tracker.recordsBefore at 1. cbn. now rewrite app_nil_r.
  - unfold Tracker.recordsBefore at 1. cbn [Tracker.trackingFile Tracker.appendLog].
    rewrite Hlog, map_app, in_app_iff, Hkeys.
    split; [intros [H|H]; [exact H|]|now left].
    rewrite Hb, map_app, in_app_iff. now right.
Qed.

(** X16. Loading is stable: the files a new tracker leaves behind after
    loading (with the consolidation it attempts, whether that succeeds, or
    fails on the primary store, or fails on the journal) give a second new
    tracker exactly the same answers: no key is gained or lost by a load. *)
Theorem reload_is_stable (fs : Tracker.Files) (k : string) :
  snd (Tracker.isConverted k Tracker.new
         (snd (Tracker.loadConvertedKeys Tracker.new fs)))
  = snd (Tracker.isConverted k Tracker.new fs).
Proof.
  apply Bool.eq_iff_eq_true. rewrite !load_membership.
  unfold Tracker.loadConvertedKeys. cbn [Tracker.isLoaded Tracker.new].
  unfold Tracker.loadFromAppendLog.
  destruct (Tracker.appendLog fs) as [data|]; [|reflexivity].
  destruct (negb _); cbn [snd]; [apply consolidateFiles_keys|reflexivity].
Qed.

(** X17. A flush that can write commits the queue, unless the primary
    store holds JSON that is no array.  When the tracker is not already
    writing and the primary store is writable, [flush] leaves the memory
    as it was and does not touch the journal.  If the primary store is
    missing, does not parse or holds an array, the write queue is empty
    afterwards and, when records were waiting, the primary store is
    rewritten as its former records (none when it was missing or did not
    parse) followed by the waiting records in order.  If the primary store
    holds another JSON value, [push] throws on it: nothing is written and
    the records are back in the queue, tracker and files being as they
    were. *)
Theorem flush_commits_queue (tr : Tracker.t) (fs : Tracker.Files) :
  Tracker.isWriting tr = false ->
  Tracker.trackingFileWritable fs = true ->
  let after := Tracker.flush tr fs in
  Tracker.isWriting (fst after) = false
  /\ Tracker.convertedKeys (fst after) = Tracker.convertedKeys tr
  /\ Tracker.appendLog (snd after) = Tracker.appendLog fs
  /\ (Tracker.trackingFile fs <> Some Tracker.NotArray ->
      Tracker.writeQueue (fst after) = []
      /\ (Tracker.writeQueue tr <> [] ->
          Tracker.trackingFile (snd after)
          = Some (Tracker.Records (primaryRecords fs ++ Tracker.writeQueue tr)))
      /\ (Tracker.writeQueue tr = [] -> snd after = fs))
  /\ (Tracker.trackingFile fs = Some Tracker.NotArray -> after = (tr, fs)).
Proof.
  intros Hw Hfile. cbv zeta.
  unfold Tracker.flush, Tracker.processWriteQueue, Tracker.processWriteQueue_begin,
    Tracker.processWriteQueue_resume, Tracker.writeTrackingFile, primaryRecords.
  destruct tr as [keys loaded queue writing susp]. cbn in Hw. subst writing.
  cbn [Tracker.isWriting Tracker.writeQueue orb].
  destruct queue as [|record queue]; cbn.
  - split; [reflexivity|]. split; [reflexivity|]. split; [reflexivity|]. split.
    + intros _. split; [reflexivity|].
      split; [intros Hq; now contradiction Hq|reflexivity].
    + reflexivity.
  - rewrite Hfile.
    destruct (Tracker.trackingFile fs) as [[records| |]|]; cbn;
      (split; [reflexivity|]); (split; [reflexivity|]); (split; [reflexivity|]);
      (split; intros Hna;
       [first [ exfalso; apply Hna; reflexivity
              | split; [reflexivity|]; split; [reflexivity|discriminate] ]
       |first [ discriminate Hna | now rewrite app_nil_r ]]).
Qed.

Lemma flush_commits_queue_witness :
  Tracker.trackingFile (snd (Tracker.flush (queued 2) crashedFiles))
  = Some (Tracker.Records [recordOf "a.jpg"; recordOf "b.png";
                           recordOf "q.jpg"; recordOf "q.jpg"])
  /\ Tracker.flush (queued 2) objectFiles = (queued 2, objectFiles).
Proof.
  split.
  - refine (proj1 (proj2 (proj1 (proj2 (proj2 (proj2
              (flush_commits_queue (queued 2) crashedFiles eq_refl eq_refl)))) _)) _);
      discriminate.
  - exact (proj2 (proj2 (proj2 (proj2
              (flush_commits_queue (queued 2) objectFiles eq_refl eq_refl)))) eq_refl).
Defined.

(** X18. A flush that cannot write loses nothing: when the primary store
    is not writable (and the tracker is not already writing), [flush]
    returns the tracker and the files exactly as they were, the records
    back in the queue in their order. *)
Theorem flush_failure_requeues (tr : Tracker.t) (fs : Tracker.Files) :
  Tracker.isWriting tr = false ->
  Tracker.trackingFileWritable fs = false ->
  Tracker.flush tr fs = (tr, fs).
Proof.
  intros Hw Hfile.
  unfold Tracker.flush, Tracker.processWriteQueue, Tracker.processWriteQueue_begin,
    Tracker.processWriteQueue_resume, Tracker.writeTrackingFile.
  destruct tr as [keys loaded queue writing susp]. cbn in *. subst writing.
  destruct queue as [|record queue]; cbn; [reflexivity|].
  rewrite Hfile.
  destruct (Tracker.trackingFile fs) as [[records| |]|]; cbn; now rewrite app_nil_r.
Qed.

Lemma flush_failure_requeues_witness :
  Tracker.flush (queued 3) readOnlyFiles = (queued 3, readOnlyFiles).
Proof.
  apply flush_failure_requeues; reflexivity.
Defined.

Lemma consolidateFiles_flags fs :
  Tracker.appendLogWritable (Tracker.consolidateFiles fs) = Tracker.appendLogWritable fs
  /\ Tracker.trackingFileWritable (Tracker.consolidateFiles fs)
     = Tracker.trackingFileWritable fs.
Proof.
  unfold Tracker.consolidateFiles, Tracker.consolidateFiles_try.
  destruct (Tracker.appendLog fs); [|split; reflexivity].
  destruct (fold_left _ _ _) as [allRecords seen].
  unfold Tracker.writeTrackingFile, Tracker.clearAppendLog.
  destruct (Tracker.trackingFileWritable fs) eqn:E1; cbn; [|split; [reflexivity|exact E1]].
  destruct (Tracker.appendLogWritable fs) eqn:E2; cbn; split; auto.
Qed.

Lemma loadConvertedKeys_flags tr fs :
  Tracker.appendLogWritable (snd (Tracker.loadConvertedKeys tr fs))
  = Tracker.appendLogWritable fs
  /\ Tracker.trackingFileWritable (snd (Tracker.loadConvertedKeys tr fs))
     = Tracker.trackingFileWritable fs.
Proof.
  unfold Tracker.loadConvertedKeys, Tracker.loadFromAppendLog.
  destruct (Tracker.isLoaded tr); [split; reflexivity|].
  destruct (Tracker.appendLog fs); [|split; reflexivity].
  destruct (negb _); cbn; [apply consolidateFiles_flags|split; reflexivity].
Qed.

(** X19. [markAsConverted] fails exactly when the journal cannot be
    written: with a writable journal it returns normally; otherwise it
    throws what [fs.appendFile] threw and leaves the files as loading left
    them, although the key is already in memory and the record already in
    the write queue, from which a later flush would commit it. *)
Theorem markAsConverted_outcome
        (record : Tracker.ConversionRecord) (tr : Tracker.t) (fs : Tracker.Files) :
  let after := Tracker.markAsConverted record tr fs in
  (Tracker.appendLogWritable fs = true -> snd after = Ok tt)
  /\ (Tracker.appendLogWritable fs = false ->
      snd after = Throw Tracker.EACCES
      /\ snd (fst after) = snd (Tracker.loadConvertedKeys tr fs)
      /\ In record (Tracker.writeQueue (fst (fst after)))
      /\ Set_has (Tracker.convertedKeys (fst (fst after))) (Tracker.sourceKey record)
         = true).
Proof.
  cbv zeta. unfold Tracker.markAsConverted, Tracker.appendToLog, Tracker.appendFile.
  pose proof (loadConvertedKeys_flags tr fs) as [Hflag _].
  destruct (Tracker.loadConvertedKeys tr fs) as [tr1 fs1]. cbn [snd] in *.
  rewrite Hflag. split; intros Hw; rewrite Hw.
  - now destruct (_ && _)%bool.
  - cbn. repeat split.
    + apply in_or_app. right. now left.
    + apply Set_has_add_same.
Qed.

Lemma markAsConverted_outcome_witness :
  snd (Tracker.markAsConverted (recordOf "d.jpg") Tracker.new readOnlyFiles)
  = Throw Tracker.EACCES.
Proof.
  apply (proj1 (proj2 (markAsConverted_outcome (recordOf "d.jpg") Tracker.new
                         readOnlyFiles) eq_refl)).
Defined.



(** ** The journal and whole lines *)

Lemma appended_recovers record journal :
  startsLine journal = true ->
  In record (Tracker.recordsOf (Tracker.splitLines (Tracker.appended record journal))).
Proof.
  destruct journal as [[lines [[r| |]|]]|]; cbn; try discriminate; intros _;
    rewrite ?app_nil_r, ?recordsOf_app; try (apply in_or_app; right); now left.
Qed.

(** Loading with both files writable leaves a journal that ends a line. *)
Lemma load_startsLine tr fs :
  Tracker.isLoaded tr = false ->
  Tracker.trackingFileWritable fs = true ->
  Tracker.appendLogWritable fs = true ->
  startsLine (Tracker.appendLog (snd (Tracker.loadConvertedKeys tr fs))) = true.
Proof.
  intros Hl Hfile Hlog. unfold Tracker.loadConvertedKeys. rewrite Hl.
  unfold Tracker.loadFromAppendLog.
  destruct (Tracker.appendLog fs) as [data|] eqn:Hdata; cbn [snd];
    [|now rewrite Hdata].
  destruct (Nat.eqb (List.length (Tracker.linesOf (Tracker.splitLines data))) 0) eqn:E;
    cbn [negb snd].
  - rewrite Hdata. apply Nat.eqb_eq in E. unfold startsLine.
    unfold Tracker.splitLines, Tracker.linesOf in E.
    rewrite filter_app, length_app in E.
    destruct (Tracker.unterminated data) as [[r| |]|]; cbn in E; try reflexivity; lia.
  - unfold Tracker.consolidateFiles, Tracker.consolidateFiles_try. rewrite Hdata.
    destruct (fold_left _ _ _) as [allRecords seen].
    unfold Tracker.writeTrackingFile, Tracker.clearAppendLog. rewrite Hfile.
    cbn [Tracker.appendLogWritable]. rewrite Hlog. reflexivity.
Qed.

(** X30. The journal recovers every record that started a line.  Once
    [markAsConverted] has returned without throwing, a new tracker that
    loads the files as they are reports the record's key as converted,
    provided the journal to which the record was appended was new, ended
    with a newline or ended in white space; and that is so whenever the
    tracker had yet to load and the primary store is writable, because the
    consolidation on loading has then emptied a journal that held any
    text. *)
Theorem journal_recovers_whole_lines
        (record : Tracker.ConversionRecord)
        (tr tr' : Tracker.t) (fs fs' : Tracker.Files) :
  Tracker.markAsConverted record tr fs = (tr', fs', Ok tt) ->
  startsLine (Tracker.appendLog (snd (Tracker.loadConvertedKeys tr fs))) = true
  \/ (Tracker.isLoaded tr = false /\ Tracker.trackingFileWritable fs = true) ->
  snd (Tracker.isConverted (Tracker.sourceKey record) Tracker.new fs') = true.
Proof.
  intros Hmark Hline.
  assert (Hlog : Tracker.appendLogWritable fs = true).
  { destruct (Tracker.appendLogWritable fs) eqn:E; [reflexivity|].
    pose proof (markAsConverted_outcome record tr fs) as [_ H].
    destruct (H E) as [Hthrow _]. rewrite Hmark in Hthrow. discriminate. }
  assert (Hstart : startsLine (Tracker.appendLog (snd (Tracker.loadConvertedKeys tr fs)))
                   = true).
  { destruct Hline as [H|[Hl Hfile]]; [exact H|]. now apply load_startsLine. }
  apply load_membership.
  destruct (markAsConverted_files _ _ _ _ _ Hmark) as [_ Hjournal].
  unfold Tracker.recordsBefore. rewrite Hjournal, map_app, in_app_iff. right.
  apply in_map. now apply appended_recovers.
Qed.

Lemma journal_recovers_whole_lines_witness :
  let marked := Tracker.markAsConverted (recordOf "d.jpg") Tracker.new tornWritableFiles in
  snd marked = Ok tt
  /\ snd (Tracker.isConverted "d.jpg" Tracker.new (snd (fst marked))) = true.
Proof.
  cbv zeta. split; [reflexivity|].
  apply (journal_recovers_whole_lines (recordOf "d.jpg") Tracker.new
           (fst (fst (Tracker.markAsConverted (recordOf "d.jpg") Tracker.new
                        tornWritableFiles)))
           tornWritableFiles).
  - reflexivity.
  - right. split; reflexivity.
Defined.

(** ** The image processor *)

(** X21. [convertToWebP] refuses every buffer shorter than 100 bytes
    with a [CorruptedImageError], before the library is consulted: the
    outcome does not depend on what the library would answer, nor on the
    quality. *)
Theorem convertToWebP_rejects_small_buffers
        (sharp : Sharp.Library) (inputBuffer : Buffer) (q : Z) :
  Buffer_length inputBuffer < 100 ->
  Sharp.convertToWebP sharp inputBuffer q
  = Sharp.Raises
      (Sharp.Processing Sharp.CorruptedImageError
         (if Buffer_length inputBuffer =? 0 then "Empty or invalid buffer"
          else "File too small to be a valid image")).
Proof.
  intros Hsmall. unfold Sharp.convertToWebP, Sharp.validateFileIntegrity.
  destruct (Buffer_length inputBuffer =? 0); [reflexivity|].
  replace (Buffer_length inputBuffer <? 100) with true
    by (symmetry; apply Z.ltb_lt; exact Hsmall).
  reflexivity.
Qed.

Lemma convertToWebP_rejects_small_buffers_witness :
  Sharp.convertToWebP (fixedSharp "png" 1 1 40) (bytes 67) 80
  = Sharp.Raises (Sharp.Processing Sharp.CorruptedImageError
                    "File too small to be a valid image").
Proof.
  apply (convertToWebP_rejects_small_buffers (fixedSharp "png" 1 1 40) (bytes 67) 80).
  reflexivity.
Defined.

Lemma convertToWebP_returns
        (sharp : Sharp.Library) (inputBuffer webpBuffer : Buffer) (q : Z) :
  Sharp.convertToWebP sharp inputBuffer q = Sharp.Returns webpBuffer ->
  Sharp.webp sharp inputBuffer (Z.max 1 (Z.min 100 q)) = Ok webpBuffer
  /\ 100 <= Buffer_length inputBuffer.
Proof.
  unfold Sharp.convertToWebP, Sharp.validateFileIntegrity.
  destruct (Buffer_length inputBuffer =? 0); [discriminate|].
  destruct (Buffer_length inputBuffer <? 100) eqn:Hlen; [discriminate|].
  apply Z.ltb_ge in Hlen.
  destruct (Sharp.metadata sharp inputBuffer) as [md|e]; [|discriminate].
  destruct (Sharp.noString _); [discriminate|].
  destruct (_ || _)%bool; [discriminate|].
  destruct (Sharp.webp sharp inputBuffer _) as [out|e]; [|discriminate].
  intros [= ->]. split; [reflexivity|exact Hlen].
Qed.

(** X22. When [convertToWebP] returns a buffer, it is the library's
    encoding at the requested quality clamped into 1..100, the input has
    at least 100 bytes, and the library reports a format and positive
    dimensions for it; and the call answers as the call with the clamped
    quality does. *)
Theorem convertToWebP_clamps_quality
        (sharp : Sharp.Library) (inputBuffer webpBuffer : Buffer) (q : Z) :
  Sharp.convertToWebP sharp inputBuffer q = Sharp.Returns webpBuffer ->
  Sharp.webp sharp inputBuffer (Z.max 1 (Z.min 100 q)) = Ok webpBuffer
  /\ 1 <= Z.max 1 (Z.min 100 q) <= 100
  /\ 100 <= Buffer_length inputBuffer
  /\ Sharp.convertToWebP sharp inputBuffer (Z.max 1 (Z.min 100 q))
     = Sharp.Returns webpBuffer
  /\ exists md w h,
       Sharp.metadata sharp inputBuffer = Ok md
       /\ Sharp.noString (Sharp.format md) = false
       /\ Sharp.width md = Some w /\ Sharp.height md = Some h
       /\ 0 < w /\ 0 < h.
Proof.
  unfold Sharp.convertToWebP, Sharp.validateFileIntegrity.
  replace (Z.max 1 (Z.min 100 (Z.max 1 (Z.min 100 q)))) with (Z.max 1 (Z.min 100 q))
    by lia.
  destruct (Buffer_length inputBuffer =? 0); [discriminate|].
  destruct (Buffer_length inputBuffer <? 100) eqn:Hlen; [discriminate|].
  destruct (Sharp.metadata sharp inputBuffer) as [md|e]; [|discriminate].
  destruct (Sharp.noString (Sharp.format md)) eqn:Hf; [discriminate|].
  destruct (Sharp.width md) as [w|] eqn:Hw; [|discriminate].
  destruct (Sharp.height md) as [h|] eqn:Hh;
    [|cbn; rewrite orb_true_r; discriminate].
  cbn [Sharp.noNumber Sharp.notPositive].
  destruct (w =? 0) eqn:Hw0; [discriminate|].
  destruct (h =? 0) eqn:Hh0; [discriminate|].
  destruct (w <=? 0) eqn:Hw1; [discriminate|].
  destruct (h <=? 0) eqn:Hh1; [discriminate|]. cbn.
  destruct (Sharp.webp sharp inputBuffer _) as [out|e]; [|discriminate].
  intros [= ->]. split; [reflexivity|]. split; [lia|].
  split; [apply Z.ltb_ge; exact Hlen|]. split; [reflexivity|].
  exists md, w, h. repeat split; try reflexivity; try assumption.
  - apply Z.leb_gt; exact Hw1.
  - apply Z.leb_gt; exact Hh1.
Qed.

Lemma convertToWebP_clamps_quality_witness :
  Sharp.webp (fixedSharp "png" 10 10 600) (bytes 1000) 100 = Ok (bytes 600).
Proof.
  apply (proj1 (convertToWebP_clamps_quality (fixedSharp "png" 10 10 600)
                  (bytes 1000) (bytes 600) 250 eq_refl)).
Defined.

(** X23. No error of the library escapes the processor unwrapped:
    whatever the library does, what [validateFileIntegrity],
    [convertToWebP] and [getImageMetadata] throw is an instance of
    [ImageProcessingError]. *)
Theorem processor_wraps_every_error
        (sharp : Sharp.Library) (buffer : Buffer) (q : Z) :
  Sharp.wrapped (Sharp.validateFileIntegrity sharp buffer) = true
  /\ Sharp.wrapped (Sharp.convertToWebP sharp buffer q) = true
  /\ Sharp.wrapped (Sharp.getImageMetadata sharp buffer) = true.
Proof.
  assert (Hv : Sharp.wrapped (Sharp.validateFileIntegrity sharp buffer) = true).
  { unfold Sharp.validateFileIntegrity.
    destruct (Buffer_length buffer =? 0); [reflexivity|].
    destruct (Buffer_length buffer <? 100); [reflexivity|].
    destruct (Sharp.metadata sharp buffer) as [md|e]; [|reflexivity].
    destruct (Sharp.noString _); [reflexivity|].
    destruct (_ || _)%bool; reflexivity. }
  split; [exact Hv|]. split.
  - unfold Sharp.convertToWebP.
    destruct (Sharp.validateFileIntegrity sharp buffer) as [[]|[c m|e]];
      [|reflexivity|discriminate].
    destruct (Sharp.webp sharp buffer _); reflexivity.
  - unfold Sharp.getImageMetadata.
    destruct (Sharp.metadata sharp buffer) as [md|e]; [|reflexivity].
    destruct (Sharp.format md) as [f|]; [|reflexivity].
    destruct (Sharp.width md) as [w|]; [|reflexivity].
    destruct (Sharp.height md) as [h|]; [|reflexivity].
    destruct (_ || _)%bool; [reflexivity|].
    destruct (negb _); reflexivity.
Qed.

(** X24. [getImageMetadata] succeeds only on buffers that
    [validateImageFormat] accepts; the metadata it returns carries the
    library's format, which is one of jpeg, jpg, png up to case, its
    non-zero dimensions and the length of the buffer. *)
Theorem getImageMetadata_implies_valid
        (sharp : Sharp.Library) (buffer : Buffer) (full : Sharp.FullMetadata) :
  Sharp.getImageMetadata sharp buffer = Sharp.Returns full ->
  Sharp.validateImageFormat sharp buffer = true
  /\ In (toLowerCase (originalFormat (Sharp.base full))) Sharp.SUPPORTED_FORMATS
  /\ exists md,
       Sharp.metadata sharp buffer = Ok md
       /\ Sharp.format md = Some (originalFormat (Sharp.base full))
       /\ Sharp.width md = Some (width (Sharp.base full))
       /\ Sharp.height md = Some (height (Sharp.base full))
       /\ width (Sharp.base full) <> 0 /\ height (Sharp.base full) <> 0
       /\ Sharp.fileSize full = Buffer_length buffer.
Proof.
  unfold Sharp.getImageMetadata, Sharp.validateImageFormat.
  destruct (Sharp.metadata sharp buffer) as [md|e]; [|discriminate].
  destruct (Sharp.format md) as [f|] eqn:Hf; [|discriminate].
  destruct (Sharp.width md) as [w|] eqn:Hw; [|discriminate].
  destruct (Sharp.height md) as [h|] eqn:Hh; [|discriminate].
  destruct (truthy f) eqn:Ht; cbn [negb orb]; [|discriminate].
  destruct (w =? 0) eqn:Hw0; [discriminate|].
  destruct (h =? 0) eqn:Hh0; [discriminate|]. cbn [orb].
  destruct (Sharp.isFormatSupported f) eqn:Hs; cbn [negb]; [|discriminate].
  intros [= <-]. cbn. split; [reflexivity|]. split.
  - unfold Sharp.isFormatSupported in Hs. apply existsb_exists in Hs.
    destruct Hs as (x & Hin & Hx). apply String.eqb_eq in Hx. now subst.
  - exists md. repeat split; try assumption.
    + apply Z.eqb_neq; exact Hw0.
    + apply Z.eqb_neq; exact Hh0.
Qed.

Lemma getImageMetadata_implies_valid_witness :
  Sharp.validateImageFormat (fixedSharp "PNG" 10 10 600) (bytes 1000) = true.
Proof.
  apply (proj1 (getImageMetadata_implies_valid (fixedSharp "PNG" 10 10 600)
                  (bytes 1000) _ eq_refl)).
Defined.

(** ** The pipeline with the real image processor *)

(** X25. With [SharpImageProcessor] behind the pipeline, a run returns
    success only if it was not skipped, the downloaded body has at least
    100 bytes, the library reports a format among jpeg, jpg, png for it,
    and the converted size is the length of the library's encoding at the
    configured quality clamped into 1..100: smaller objects and other
    formats never convert. *)
Theorem success_needs_a_sound_image
        {W : Type} (s3 : S3Service W) (cfg : Config) (sharp : Sharp.Library)
        (dry : bool) (s3Object : S3Object) (w : W) :
  let this := sharpConversionService s3 cfg sharp dry in
  status (snd (processImage this s3Object w)) = Success ->
  exists w1 w2 imageBuffer webpBuffer,
    skipIfExists this (generateTargetKey (key s3Object)) w = (w1, false)
    /\ downloadImage s3 (targetBucket cfg) (key s3Object) w1 = (w2, Ok imageBuffer)
    /\ 100 <= Buffer_length imageBuffer
    /\ Sharp.validateImageFormat sharp imageBuffer = true
    /\ Sharp.webp sharp imageBuffer (Z.max 1 (Z.min 100 (quality cfg))) = Ok webpBuffer
    /\ convertedSize (snd (processImage this s3Object w)) = Buffer_length webpBuffer.
Proof.
  cbv zeta. unfold processImage, processImage_catch.
  destruct (skipIfExists _ _ w) as [w1 found] eqn:Hskip.
  destruct found; [discriminate|].
  cbn [s3Service imageProcessor config dryRun sharpConversionService
       validateImageFormat getImageMetadata convertToWebP SharpImageProcessor].
  destruct (downloadImage s3 (targetBucket cfg) (key s3Object) w1)
    as [w2 [imageBuffer|e]] eqn:Hget; [|discriminate].
  destruct (Sharp.validateImageFormat sharp imageBuffer) eqn:Hvalid; [|discriminate].
  destruct (Sharp.getImageMetadata sharp imageBuffer) as [full|r]; cbn [Sharp.result];
    [|discriminate].
  destruct (Sharp.convertToWebP sharp imageBuffer (quality cfg)) as [webpBuffer|r]
    eqn:Hwebp; cbn [Sharp.result]; [|discriminate].
  destruct (convertToWebP_returns _ _ _ _ Hwebp) as [Hlib Hlen].
  intros Hs. exists w1, w2, imageBuffer, webpBuffer.
  split; [first [reflexivity|exact Hskip]|].
  split; [first [reflexivity|exact Hget]|]. split; [exact Hlen|].
  split; [first [reflexivity|exact Hvalid]|]. split; [exact Hlib|].
  destruct (negb dry); [|reflexivity].
  destruct (uploadImage s3 _ _ _ _ w2) as [w3 [u|e]]; reflexivity.
Qed.

Lemma success_needs_a_sound_image_witness :
  exists webpBuffer,
    Sharp.webp (fixedSharp "jpeg" 10 10 600) (bytes 1000) 80 = Ok webpBuffer
    /\ Buffer_length webpBuffer = 600.
Proof.
  destruct (success_needs_a_sound_image (AWSS3Service defaultConfig) defaultConfig
              (fixedSharp "jpeg" 10 10 600) false photo photoStore eq_refl)
    as (w1 & w2 & imageBuffer & webpBuffer & _ & _ & _ & _ & Hlib & Hsize).
  exists webpBuffer. split; [exact Hlib|]. rewrite <- Hsize. reflexivity.
Defined.

(** ** Health *)

(** X26. The S3 health check never reports healthy: nothing assigns
    [sourceBucketAccess], which stays false, so the status is unhealthy
    whatever the store answers (while [targetBucketAccess] is true exactly
    when both commands are answered); and the GET /health route, whose
    overall status is unhealthy as soon as the S3 status is, answers 503
    whatever the use of the memory and of the disk. *)
Theorem health_is_never_reported
        (cfg : Config) (listed head : Health.Sent)
        (memory : float) (disk : option float) :
  let s3Health := Health.healthCheck cfg listed head in
  Health.status s3Health = Health.unhealthy
  /\ Health.sourceBucketAccess (Health.details s3Health) = false
  /\ Health.connection (Health.details s3Health) = Health.validateConnection listed
  /\ (Health.targetBucketAccess (Health.details s3Health) = true
      <-> listed = Health.Answered /\ head = Health.Answered)
  /\ Health.getHealthStatus s3Health memory disk = Health.Unhealthy
  /\ Health.healthRoute (Ok (Health.getHealthStatus s3Health memory disk)) = 503.
Proof.
  cbv zeta.
  assert (Hs : Health.status (Health.healthCheck cfg listed head) = Health.unhealthy).
  { unfold Health.healthCheck. cbn.
    destruct (Health.validateConnection listed); [|reflexivity].
    destruct (Health.checkBucketPermissions _ head) as [access|e]; reflexivity. }
  assert (Hg : Health.getHealthStatus (Health.healthCheck cfg listed head) memory disk
               = Health.Unhealthy).
  { unfold Health.getHealthStatus. now rewrite Hs. }
  split; [exact Hs|]. rewrite Hg.
  unfold Health.healthCheck. cbn.
  destruct listed as [|n m|e]; cbn;
    [destruct head as [|n m|e]; cbn;
     [|destruct (String.eqb n "Forbidden" || String.eqb n "AccessDenied")%bool; cbn|]|..];
    repeat split; try reflexivity; try discriminate;
    try (intros [H1 H2]; discriminate); intros H; discriminate.
Qed.

(** ** The life cycle of the application *)

Lemma runHandlers_all_resolve (handlers : list Lifecycle.Handler) :
  Forall (fun h => Lifecycle.outcome h = Ok tt) handlers ->
  Lifecycle.runHandlers handlers = (map Lifecycle.name handlers, Ok tt).
Proof.
  induction handlers as [|h handlers IH]; intros Hall; cbn; [reflexivity|].
  inversion Hall as [|? ? Hh Hrest]; subst. rewrite Hh, (IH Hrest). reflexivity.
Qed.

(** X27. A shutdown happens once. After [shutdown], whether it returned
    or threw, the application is shutting down for good: another
    [shutdown] returns at once without calling a handler or stopping the
    server, and [start] and [runConversion] throw. When every handler
    resolves and the server closes, the handlers were called in the reverse
    order of their registration and the server no longer listens; when the
    handler registered last throws, it is the only one called, the server
    keeps listening and [shutdown] throws that error. *)
Theorem shutdown_happens_once
        (app : Lifecycle.App) (listen : Result unit) (report : ConversionReport) :
  let after := fst (Lifecycle.shutdown app) in
  Lifecycle.isShuttingDown after = true
  /\ Lifecycle.shutdown after = (after, Ok tt)
  /\ Lifecycle.start listen after
     = (after, Throw (Error "Cannot start application during shutdown"))
  /\ Lifecycle.runConversion report after
     = Throw (Error "Cannot run conversion during shutdown")
  /\ (Lifecycle.isShuttingDown app = false ->
      Forall (fun h => Lifecycle.outcome h = Ok tt) (Lifecycle.shutdownHandlers app) ->
      Lifecycle.closeError app = None ->
      snd (Lifecycle.shutdown app) = Ok tt
      /\ Lifecycle.called after
         = Lifecycle.called app ++ rev (map Lifecycle.name (Lifecycle.shutdownHandlers app))
      /\ Lifecycle.listening after = false)
  /\ (forall earlier last e,
         Lifecycle.isShuttingDown app = false ->
         Lifecycle.shutdownHandlers app = earlier ++ [last] ->
         Lifecycle.outcome last = Throw e ->
         snd (Lifecycle.shutdown app) = Throw e
         /\ Lifecycle.called after = Lifecycle.called app ++ [Lifecycle.name last]
         /\ Lifecycle.listening after = Lifecycle.listening app).
Proof.
  cbv zeta.
  assert (Hdown : Lifecycle.isShuttingDown (fst (Lifecycle.shutdown app)) = true).
  { unfold Lifecycle.shutdown, Lifecycle.stopServer.
    destruct (Lifecycle.isShuttingDown app) eqn:E; [exact E|].
    destruct (Lifecycle.runHandlers _) as [names [[]|e]]; cbn; [|reflexivity].
    destruct (Lifecycle.listening app); [destruct (Lifecycle.closeError app)|]; reflexivity. }
  split; [exact Hdown|].
  split; [unfold Lifecycle.shutdown at 1; now rewrite Hdown|].
  split; [unfold Lifecycle.start; now rewrite Hdown|].
  split; [unfold Lifecycle.runConversion; now rewrite Hdown|].
  split.
  - intros Hrun Hall Hclose. unfold Lifecycle.shutdown, Lifecycle.stopServer.
    rewrite Hrun, runHandlers_all_resolve by (apply Forall_rev; exact Hall).
    cbn. rewrite Hclose, map_rev.
    destruct (Lifecycle.listening app) eqn:El; cbn; rewrite ?El; repeat split.
  - intros earlier last e Hrun Hh Hthrow. unfold Lifecycle.shutdown.
    rewrite Hrun, Hh, rev_app_distr. cbn. rewrite Hthrow. cbn. repeat split.
Qed.

Lemma shutdown_happens_once_witness :
  snd (Lifecycle.shutdown runningApp) = Throw (Error "timeout")
  /\ Lifecycle.called (fst (Lifecycle.shutdown runningApp)) = ["metrics"]
  /\ Lifecycle.listening (fst (Lifecycle.shutdown runningApp)) = true.
Proof.
  apply (proj2 (proj2 (proj2 (proj2 (proj2
           (shutdown_happens_once runningApp (Ok tt) emptyReport)))))
           [ {| Lifecycle.name := "flush"; Lifecycle.outcome := Ok tt |} ]
           {| Lifecycle.name := "metrics"; Lifecycle.outcome := Throw (Error "timeout") |}
           (Error "timeout"));
    reflexivity.
Defined.

(** ** Validation of the configuration *)

Lemma if_push (c : bool) (errors : list Configuration.ValidationError)
      (e : Configuration.ValidationError) :
  (if c then Configuration.push errors e else errors)
  = errors ++ (if c then [e] else []).
Proof. destruct c; [reflexivity|now rewrite app_nil_r]. Qed.

Lemma filter_text (c : bool) (e : Configuration.ValidationError) :
  aboutText e = true ->
  filter aboutText (if c then [e] else []) = (if c then [e] else []).
Proof. intros H. destruct c; cbn [filter]; [now rewrite H|reflexivity]. Qed.

Lemma filter_number (c : bool) (e : Configuration.ValidationError) :
  aboutText e = false ->
  filter aboutText (if c then [e] else []) = [].
Proof. intros H. destruct c; cbn [filter]; [now rewrite H|reflexivity]. Qed.

(** X28. The range checks of [validateConfig] let NaN through: with every
    number of a configuration replaced by NaN, the errors reported are
    exactly the errors of the configuration that are not about a number
    (region, bucket, formats, log level and log format), so a
    configuration that [loadConfig] returns is still returned with all
    its numbers NaN. *)
Theorem validateConfig_accepts_NaN (config : Configuration.Config) :
  Configuration.validateConfig (withNumbers PrimFloat.nan config)
  = filter aboutText (Configuration.validateConfig config)
  /\ (Configuration.loadConfig config = inl config ->
      Configuration.loadConfig (withNumbers PrimFloat.nan config)
      = inl (withNumbers PrimFloat.nan config)).
Proof.
  assert (H : Configuration.validateConfig (withNumbers PrimFloat.nan config)
              = filter aboutText (Configuration.validateConfig config)).
  { unfold Configuration.validateConfig, withNumbers.
    cbn [Configuration.region Configuration.targetBucket Configuration.quality
         Configuration.maxFileSize Configuration.supportedFormats
         Configuration.concurrency Configuration.retryAttempts
         Configuration.retryDelay Configuration.level Configuration.format
         Configuration.port].
    cbv zeta.
    change (PrimFloat.ltb PrimFloat.nan 1) with false.
    change (PrimFloat.ltb 100 PrimFloat.nan) with false.
    change (PrimFloat.leb PrimFloat.nan 0) with false.
    change (PrimFloat.ltb 50 PrimFloat.nan) with false.
    change (PrimFloat.ltb PrimFloat.nan 0) with false.
    change (PrimFloat.ltb 10 PrimFloat.nan) with false.
    change (PrimFloat.ltb PrimFloat.nan 100) with false.
    change (PrimFloat.ltb 30000 PrimFloat.nan) with false.
    change (PrimFloat.ltb 65535 PrimFloat.nan) with false.
    cbn [orb].
    rewrite !if_push, !filter_app.
    repeat first [ rewrite filter_text by reflexivity
                 | rewrite filter_number by reflexivity ].
    cbn [filter]. rewrite !app_nil_r. reflexivity. }
  split; [exact H|].
  unfold Configuration.loadConfig. cbv zeta. rewrite H.
  destruct (Configuration.validateConfig config) as [|e errors]; cbn; [reflexivity|].
  discriminate.
Qed.

(** ** Bucket names *)

Lemma edge_not_dot (a : ascii) :
  (Configuration.isLower a || Configuration.isDigit a)%bool = true ->
  Ascii.eqb a "." = false.
Proof.
  destruct a as [[] [] [] [] [] [] [] []]; vm_compute; intros H;
    first [reflexivity | discriminate H].
Qed.

Lemma lowerChar_bucket (a : ascii) :
  (Configuration.isLower a || Configuration.isDigit a
   || Ascii.eqb a "." || Ascii.eqb a "-")%bool = true ->
  lowerChar a = a.
Proof.
  destruct a as [[] [] [] [] [] [] [] []]; vm_compute; intros H;
    first [reflexivity | discriminate H].
Qed.

Lemma bucketTail_lower (s : string) :
  Configuration.bucketTail s = true -> toLowerCase s = s.
Proof.
  induction s as [|a s IH]; [reflexivity|].
  cbn [Configuration.bucketTail toLowerCase]. destruct s as [|b s].
  - intros H. rewrite lowerChar_bucket; [reflexivity|]. now rewrite H.
  - intros H. apply andb_true_iff in H as [Ha Hs].
    rewrite lowerChar_bucket by exact Ha. now rewrite (IH Hs).
Qed.

Lemma split_cons (c : ascii) (s : string) :
  exists seg segs, split c s = seg :: segs.
Proof.
  destruct s as [|a s]; cbn; [eauto|].
  destruct (Ascii.eqb a c); [eauto|]. destruct (split c s); eauto.
Qed.

Lemma split_String (c a : ascii) (s : string) :
  split c (String a s)
  = if Ascii.eqb a c then EmptyString :: split c s
    else match split c s with
         | [] => [String a EmptyString]
         | seg :: segs => String a seg :: segs
         end.
Proof. reflexivity. Qed.

Lemma bucketTail_labels (s : string) :
  Configuration.bucketTail s = true ->
  Configuration.includes s ".." = false ->
  forallb truthy (tl (split "." s)) = true
  /\ (hd EmptyString (split "." s) = EmptyString -> exists s', s = String "." s').
Proof.
  induction s as [|a s IH]; [discriminate|].
  cbn [Configuration.bucketTail]. destruct s as [|b s].
  - intros Ha _. cbn. rewrite (edge_not_dot a Ha). cbn. split; [reflexivity|discriminate].
  - intros H Hinc. apply andb_true_iff in H as [Ha Hs].
    cbn [Configuration.includes] in Hinc. apply orb_false_iff in Hinc as [Hpre Hinc].
    destruct (IH Hs Hinc) as [Htl Hhd].
    rewrite split_String.
    destruct (split_cons "." (String b s)) as (seg & segs & E).
    destruct (Ascii.eqb_spec a ".") as [->|Hne].
    + cbn [tl hd]. split; [|eauto].
      rewrite E in *. cbn [tl hd forallb] in *. rewrite Htl, andb_true_r.
      destruct seg; [|reflexivity]. destruct (Hhd eq_refl) as [s' [= -> ->]].
      destruct s'; vm_compute in Hpre; discriminate Hpre.
    + rewrite E in *. cbn [tl hd] in *. split; [exact Htl|discriminate].
Qed.

(** X29. A bucket name that [validateBucketName] accepts has 3 to 63
    characters, is left unchanged by [toLowerCase] (it holds no capital
    letter), splits at its dots into labels none of which is empty (the
    first and the last character are no dot, and no two dots are
    adjacent), and is not of the form of an IP address. *)
Theorem validateBucketName_accepts (bucketName : string) :
  Configuration.validateBucketName bucketName = true ->
  (3 <= String.length bucketName <= 63)%nat
  /\ toLowerCase bucketName = bucketName
  /\ forallb truthy (split "." bucketName) = true
  /\ Configuration.ipRegex bucketName = false.
Proof.
  unfold Configuration.validateBucketName.
  destruct (negb (truthy bucketName) || _ || _)%bool eqn:Hlen; [discriminate|].
  destruct (Configuration.bucketRegex bucketName) eqn:Hre; [|discriminate].
  destruct (Configuration.includes bucketName ".." || _)%bool eqn:Hinc; [discriminate|].
  destruct (Configuration.ipRegex bucketName) eqn:Hip; [discriminate|]. intros _.
  apply orb_false_iff in Hlen as [Hlen H63]. apply orb_false_iff in Hlen as [_ H3].
  apply Nat.ltb_ge in H3, H63. apply orb_false_iff in Hinc as [Hdots _].
  split; [lia|]. destruct bucketName as [|a s]; [discriminate|].
  cbn [Configuration.bucketRegex] in Hre. apply andb_true_iff in Hre as [Ha Hs].
  cbn [Configuration.includes] in Hdots. apply orb_false_iff in Hdots as [_ Hdots].
  split.
  - cbn [toLowerCase]. rewrite (bucketTail_lower s Hs), lowerChar_bucket; [reflexivity|].
    now rewrite Ha.
  - split; [|reflexivity].
    destruct (bucketTail_labels s Hs Hdots) as [Htl _].
    rewrite split_String, (edge_not_dot a Ha).
    destruct (split_cons "." s) as (seg & segs & E). rewrite E in *. exact Htl.
Qed.

Lemma validateBucketName_accepts_witness :
  toLowerCase "my-webp-bucket" = "my-webp-bucket"
  /\ forallb truthy (split "." "my-webp-bucket") = true.
Proof.
  destruct (validateBucketName_accepts "my-webp-bucket" eq_refl) as (_ & H1 & H2 & _).
  split; [exact H1|exact H2].
Defined.
